(** * Firestore collection exporter ([get_collection.py])

    A shallow embedding of the exporter: the special-value JSON encoder
    [FirestoreEncoder], the path arithmetic of [process_document], and the
    mutually recursive traversal [process_document] / [process_collection],
    followed by the properties of the export that the specification states.

    Python strings are modelled as [string] (characters with code below 256),
    paths follow [posixpath], and the remote store is a finite tree whose nodes
    record what each client call answers, failures included. A collection
    reference is what the client library makes it: it has no attribute
    [path], and [db.collection] refuses a name with an even number of
    segments. *)

From Stdlib Require Import ZArith String Ascii DecimalString.
From stdpp Require Import base option list strings gmap.


Set Warnings "-register-all,-clear-no-such-hyp".

(** ** Python strings *)

Module PyStr.

Definition sep : ascii := "/"%char.
Definition dquote : ascii := "034"%char.
Definition newline : ascii := "010"%char.

Definition chr (c : ascii) : string := String c EmptyString.

Definition is_empty (s : string) : bool :=
  match s with EmptyString => true | String _ _ => false end.

(** [s.split('/')] *)
Fixpoint split (s : string) : list string :=
  match s with
  | EmptyString => [EmptyString]
  | String c r =>
      if Ascii.eqb c sep then EmptyString :: split r
      else match split r with
           | h :: t => String c h :: t
           | [] => [chr c]
           end
  end.

(** ['/'.join(l)] *)
Fixpoint join (l : list string) : string :=
  match l with
  | [] => EmptyString
  | [x] => x
  | x :: l' => x +:+ chr sep +:+ join l'
  end.

Definition startswith_sep (s : string) : bool :=
  match s with String c _ => Ascii.eqb c sep | EmptyString => false end.

Fixpoint endswith_sep (s : string) : bool :=
  match s with
  | EmptyString => false
  | String c EmptyString => Ascii.eqb c sep
  | String _ r => endswith_sep r
  end.

Fixpoint has_sep (s : string) : bool :=
  match s with
  | EmptyString => false
  | String c r => Ascii.eqb c sep || has_sep r
  end.

(** [' ' * n] for the two-space indent unit *)
Fixpoint repeat_indent (n : nat) : string :=
  match n with O => EmptyString | S k => "  " +:+ repeat_indent k end.

End PyStr.

(** ** [posixpath] *)

Module OsPath.
Import PyStr.

(** one iteration of the loop of [os.path.join] *)
Definition join_step (path b : string) : string :=
  if startswith_sep b then b
  else if is_empty path || endswith_sep path then path +:+ b
  else path +:+ chr sep +:+ b.

(** [os.path.join(a, *p)] *)
Definition join (a : string) (p : list string) : string :=
  fold_left join_step p a.

(** [p[:p.rfind('/') + 1]] *)
Fixpoint head_part (p : string) : string :=
  match p with
  | EmptyString => EmptyString
  | String c r => if has_sep p then String c (head_part r) else EmptyString
  end.

Fixpoint all_sep (s : string) : bool :=
  match s with
  | EmptyString => true
  | String c r => Ascii.eqb c sep && all_sep r
  end.

(** [s.rstrip('/')] *)
Fixpoint rstrip_sep (s : string) : string :=
  match s with
  | EmptyString => EmptyString
  | String c r =>
      match rstrip_sep r with
      | EmptyString => if Ascii.eqb c sep then EmptyString else chr c
      | r' => String c r'
      end
  end.

(** [os.path.dirname(p)] *)
Definition dirname (p : string) : string :=
  let head := head_part p in
  if negb (is_empty head) && negb (all_sep head) then rstrip_sep head else head.

End OsPath.

(** ** Values held by a document *)

(** What a call or an attribute access does: it returns, or it raises. *)
Inductive raised (A : Type) : Type :=
| Returns (a : A)
| Raises (msg : string).
Arguments Returns {A} a.
Arguments Raises {A} msg.

(** A value that is not JSON-native, described by what the encoder asks of it. *)
Record pyobj : Type := PyObj {
  has_timestamp : bool;          (* hasattr(obj, 'timestamp') *)
  is_datetime : bool;            (* isinstance(obj, datetime.datetime) *)
  isoformat : raised string;     (* obj.isoformat() *)
  path_attr : option string;     (* obj.path, when hasattr(obj, 'path') *)
  has_document_path : bool;      (* hasattr(obj, '_document_path') *)
  type_str : string;             (* str(type(obj)) *)
  class_name : string;           (* obj.__class__.__name__ *)
  str_text : string              (* str(obj), as this run gives it: for a
                                    class with no __str__ or __repr__ it
                                    holds the address of the object *)
}.

Inductive pyval : Type :=
| PNone
| PBool (b : bool)
| PInt (z : Z)
| PFloat (repr : string)         (* a float, carried as its repr() text *)
| PStr (s : string)
| PList (xs : list pyval)
| PDict (items : list (string * pyval))
| PObj (o : pyobj).

(** ** The JSON encoder ([json.dump] with [indent=2]) *)

Module Json.
Import PyStr.

Definition hex_digit (n : N) : ascii :=
  match String.get (N.to_nat (N.land n 15)) "0123456789abcdef" with
  | Some c => c
  | None => "0"%char
  end.

(** ['\\u{0:04x}'.format(n)] *)
Definition u_escape (n : N) : string :=
  "\u" +:+ chr (hex_digit (N.shiftr n 12)) +:+ chr (hex_digit (N.shiftr n 8))
       +:+ chr (hex_digit (N.shiftr n 4)) +:+ chr (hex_digit n).

(** the replacement of one character in [encode_basestring_ascii] *)
Definition escape_char (c : ascii) : string :=
  let n := N_of_ascii c in
  if Ascii.eqb c "\"%char then "\\"
  else if Ascii.eqb c dquote then "\" +:+ chr dquote
  else if (32 <=? n)%N && (n <=? 126)%N then chr c
  else if (n =? 8)%N then "\b"
  else if (n =? 12)%N then "\f"
  else if (n =? 10)%N then "\n"
  else if (n =? 13)%N then "\r"
  else if (n =? 9)%N then "\t"
  else u_escape n.

Fixpoint escape (s : string) : string :=
  match s with
  | EmptyString => EmptyString
  | String c r => escape_char c +:+ escape r
  end.

(** [encode_basestring_ascii] *)
Definition encoder (s : string) : string :=
  chr dquote +:+ escape s +:+ chr dquote.

(** [int.__repr__] *)
Definition intstr (z : Z) : string := NilZero.string_of_int (Z.to_int z).

(** [floatstr]: [float.__repr__], but for the three values that are not
    numbers of JSON *)
Definition floatstr (repr : string) : string :=
  if String.eqb repr "nan" then "NaN"
  else if String.eqb repr "inf" then "Infinity"
  else if String.eqb repr "-inf" then "-Infinity"
  else repr.

(** The text yielded so far, and the exception that ended the generator. *)
Definition enc : Type := string * option string.

Definition yield (s : string) : enc := (s, None).
Definition enc_raise (msg : string) : enc := (EmptyString, Some msg).
Definition enc_seq (a b : enc) : enc :=
  match a with
  | (s, None) => (s +:+ b.1, b.2)
  | (_, Some _) => a
  end.
Infix ">+>" := enc_seq (at level 65, right associativity).

Definition newline_indent (level : nat) : string :=
  chr newline +:+ repeat_indent level.

(** the loop over the items of a list or dict: nothing before the first
    item, [separator] before each later one *)
Definition each_item {A} (item : A → enc) (separator : string)
    : bool → list A → enc :=
  fix each (first : bool) (l : list A) : enc :=
    match l with
    | [] => yield EmptyString
    | x :: l' =>
        (if first then yield EmptyString else yield separator)
        >+> item x >+> each false l'
    end.

Section Iterencode.
(** the last branch of [_iterencode]: a value of no JSON-native type *)
Variable on_object : nat -> pyobj -> enc.

Fixpoint iterencode (level : nat) (o : pyval) {struct o} : enc :=
  match o with
  | PStr s => yield (encoder s)
  | PNone => yield "null"
  | PBool true => yield "true"
  | PBool false => yield "false"
  | PInt z => yield (intstr z)
  | PFloat r => yield (floatstr r)
  | PList [] => yield "[]"
  | PList xs =>
      let nl := newline_indent (S level) in
      yield "[" >+> yield nl >+>
      each_item (iterencode (S level)) ("," +:+ nl) true xs >+>
      yield (newline_indent level) >+> yield "]"
  | PDict [] => yield "{}"
  | PDict items =>
      let nl := newline_indent (S level) in
      yield "{" >+> yield nl >+>
      each_item (λ '(k, v), yield (encoder k) >+> yield ": " >+>
                            iterencode (S level) v)
                ("," +:+ nl) true items >+>
      yield (newline_indent level) >+> yield "}"
  | PObj ob => on_object level ob
  end.
End Iterencode.

Definition type_error (o : pyobj) : string :=
  "Object of type " +:+ class_name o +:+ " is not JSON serializable".

(** [json.JSONEncoder.default] *)
Definition base_default (o : pyobj) : raised pyval := Raises (type_error o).

(** [o = _default(o); yield from _iterencode(o, level)]. The value a
    [default] of this program returns is a string, or a dict of a bool and a
    string, so the encoder meets no further object inside it. *)
Definition encode_object (default : pyobj -> raised pyval)
    (level : nat) (o : pyobj) : enc :=
  match default o with
  | Returns v => iterencode (fun _ o' => enc_raise (type_error o')) level v
  | Raises msg => enc_raise msg
  end.

(** the chunks [json.dump(obj, f, indent=2, default=...)] writes to [f] *)
Definition dump (default : pyobj -> raised pyval) (obj : pyval) : enc :=
  iterencode (encode_object default) 0 obj.

End Json.

(** ** [FirestoreEncoder] *)

Module FirestoreEncoder.

Definition reference_tag : string := "__firestore_reference__".
Definition firestore_class_prefix : string := "<class 'google.cloud.firestore".

Definition tagged_reference (path : string) : pyval :=
  PDict [(reference_tag, PBool true); ("path", PStr path)].

Definition call_isoformat (obj : pyobj) : raised pyval :=
  match isoformat obj with
  | Returns s => Returns (PStr s)
  | Raises msg => Raises msg
  end.

(** [FirestoreEncoder.default] *)
Definition default (obj : pyobj) : raised pyval :=
  if has_timestamp obj then call_isoformat obj
  else if is_datetime obj then call_isoformat obj
  else match path_attr obj with
       | Some p => Returns (tagged_reference p)
       | None =>
           if has_document_path obj
              || String.prefix firestore_class_prefix (type_str obj)
           then Returns (PStr (str_text obj))
           else Json.base_default obj
       end.

End FirestoreEncoder.

(** ** The store

    A node records what the client answers for it. [doc_ref.get()] returns a
    snapshot or raises; [doc_ref.collections()] lists the subcollections or
    raises; [collection_ref.stream()] yields documents and may end with an
    exception. [collection_ref.document(doc.id)] and
    [doc_ref.collection(subcol_id)] lead to the node the id was read from. *)

Inductive snapshot : Type :=
| Absent                                   (* doc.exists is False *)
| Present (fields : list (string * pyval)). (* doc.to_dict() *)

Inductive document : Type :=
| Document (doc_id : string)
           (get : raised snapshot)
           (collections : raised (list collection))
with collection : Type :=
| Collection (col_id : string)
             (stream : list document)
             (fault : option string).

Definition doc_id (d : document) : string :=
  match d with Document id _ _ => id end.
Definition doc_get (d : document) : raised snapshot :=
  match d with Document _ g _ => g end.
Definition doc_collections (d : document) : raised (list collection) :=
  match d with Document _ _ cs => cs end.
Definition col_id (c : collection) : string :=
  match c with Collection id _ _ => id end.
Definition col_stream (c : collection) : list document :=
  match c with Collection _ ds _ => ds end.
Definition col_fault (c : collection) : option string :=
  match c with Collection _ _ f => f end.

(** The path of a reference below [parent]. *)
Definition child_path (parent id : string) : string :=
  parent +:+ "/" +:+ id.

(** ** Effects: what a run does, in program order *)

Inductive file_kind : Type := DataFile | ManifestFile.

Inductive event : Type :=
| Stream (col_path : string)               (* collection_ref.stream() *)
| Snapshot (doc_path : string)
    (* the stream has read a document and yields its snapshot *)
| Get (doc_path : string)                  (* doc_ref.get() *)
| ListCollections (doc_path : string)      (* doc_ref.collections() *)
| Makedirs (dir : string)                  (* os.makedirs succeeded *)
| Write (kind : file_kind) (file text : string)
    (* open(file, 'w') succeeded and [text] was written before the close *)
| Print (line : string).

#[global] Instance file_kind_eq_dec : EqDecision file_kind.
Proof. solve_decision. Defined.
#[global] Instance event_eq_dec : EqDecision event.
Proof. solve_decision. Defined.

(** The events of a computation, and how it ended. *)
Definition io (A : Type) : Type := list event * raised A.

#[global] Instance io_ret : MRet io := λ A a, ([], Returns a).
#[global] Instance io_bind : MBind io := λ A B f m,
  match m with
  | (t, Returns a) => let r := f a in (t ++ r.1, r.2)
  | (t, Raises msg) => (t, Raises msg)
  end.

Definition emit (e : event) : io unit := ([e], Returns tt).
Definition raise {A} (msg : string) : io A := ([], Raises msg).

(** [try: body  except Exception as e: handler(str(e))] *)
Definition try_except (body : io unit) (handler : string -> io unit) : io unit :=
  match body with
  | (t, Returns a) => (t, Returns a)
  | (t, Raises msg) => let r := handler msg in (t ++ r.1, r.2)
  end.

(** [for x in l: f(x)] *)
Fixpoint for_each {A} (f : A -> io unit) (l : list A) : io unit :=
  match l with
  | [] => mret tt
  | x :: l' => f x ;; for_each f l'
  end.

Definition print (line : string) : io unit := emit (Print line).

(** ** The exporter *)

Module Exporter.
Section Exporter.

(** The file system's answers: the exception [os.makedirs] or [open] raises
    for a path, if any, and whether a path exists when the run starts. *)
Variable makedirs_fault : string -> option string.
Variable open_fault : string -> option string.
Variable exists_before : string -> bool.

Definition makedirs (dir : string) : io unit :=
  match makedirs_fault dir with
  | Some msg => raise msg
  | None => emit (Makedirs dir)
  end.

(** [with open(file, 'w') as f: json.dump(...)]: the chunks yielded before
    an exception of the encoder reach the file. *)
Definition write_json (kind : file_kind) (file : string) (chunks : Json.enc)
    : io unit :=
  match open_fault file with
  | Some msg => raise msg
  | None =>
      emit (Write kind file chunks.1) ;;
      match chunks.2 with
      | Some msg => raise msg
      | None => mret tt
      end
  end.

(** [os.path.join(base_path, *doc_ref.path.split('/'))] *)
Definition dir_path (base_path doc_path : string) : string :=
  OsPath.join base_path (PyStr.split doc_path).

Definition file_path (base_path doc_path : string) : string :=
  dir_path base_path doc_path +:+ ".json".

Definition subcollections_path (base_path doc_path : string) : string :=
  dir_path base_path doc_path +:+ "_subcollections.json".

(** [get_all_subcollections] *)
Definition get_all_subcollections (cs : list collection) : list string :=
  col_id <$> cs.

Definition document_text (fields : list (string * pyval)) : Json.enc :=
  Json.dump FirestoreEncoder.default (PDict fields).

Definition manifest_text (subcollections : list string) : Json.enc :=
  Json.dump Json.base_default (PList (PStr <$> subcollections)).

Definition missing_line (path : string) : string :=
  "Document " +:+ path +:+ " does not exist".
Definition saved_line (path file : string) : string :=
  "Saved document " +:+ path +:+ " to " +:+ file.
Definition document_error_line (path msg : string) : string :=
  "Error processing document " +:+ path +:+ ": " +:+ msg.
Definition collection_error_line (path msg : string) : string :=
  "Error processing collection " +:+ path +:+ ": " +:+ msg.

(** [collection_ref.path]: a [CollectionReference] has the attributes [id]
    and [parent] and no attribute [path], so reading it raises
    [AttributeError]. *)
Definition attribute_error_path : string :=
  "'CollectionReference' object has no attribute 'path'".
Definition collection_ref_path (path : string) : io string :=
  raise attribute_error_path.

(** [db.collection(name)]: the name is split at its slashes, and the path of
    a collection has an odd number of elements. *)
Definition collection_path_error : string :=
  "A collection must have an odd number of path elements".
Definition db_collection (name : string) : io unit :=
  if Nat.even (length (PyStr.split name)) then raise collection_path_error
  else mret tt.

(** [process_document] and [process_collection]; [col_path] is the path of
    the collection reference the document reference was made from. *)
Fixpoint process_document (base_path col_path : string) (d : document)
    {struct d} : io unit :=
  match d with
  | Document id get collections =>
      let path := child_path col_path id in
      try_except
        (emit (Get path) ;;
         match get with
         | Raises msg => raise msg
         | Returns Absent => print (missing_line path)
         | Returns (Present fields) =>
             makedirs (OsPath.dirname (dir_path base_path path)) ;;
             write_json DataFile (file_path base_path path)
                        (document_text fields) ;;
             print (saved_line path (file_path base_path path)) ;;
             emit (ListCollections path) ;;
             match collections with
             | Raises msg => raise msg
             | Returns [] => mret tt
             | Returns cs =>
                 write_json ManifestFile (subcollections_path base_path path)
                            (manifest_text (get_all_subcollections cs)) ;;
                 (fix each (l : list collection) : io unit :=
                    match l with
                    | [] => mret tt
                    | c :: l' =>
                        process_collection base_path
                          (child_path path (col_id c)) c ;;
                        each l'
                    end) cs
             end
         end)
        (λ msg, print (document_error_line path msg))
  end
with process_collection (base_path path : string) (c : collection)
    {struct c} : io unit :=
  match c with
  | Collection _ docs fault =>
      try_except
        (emit (Stream path) ;;
         (fix each (l : list document) : io unit :=
            match l with
            | [] => mret tt
            | d :: l' =>
                emit (Snapshot (child_path path (doc_id d))) ;;
                process_document base_path path d ;;
                each l'
            end) docs ;;
         match fault with
         | Some msg => raise msg
         | None => mret tt
         end)
        (λ msg, p ← collection_ref_path path;
                print (collection_error_line p msg))
  end.

Section Blocks.
Variable base_path : string.

(** the events of a node *)
Definition doc_trace (col_path : string) (d : document) : list event :=
  (process_document base_path col_path d).1.
Definition col_trace (path : string) (c : collection) : list event :=
  (process_collection base_path path c).1.

(** one turn of the loop of [process_collection] *)
Definition visit (path : string) (d : document) : io unit :=
  emit (Snapshot (child_path path (doc_id d))) ;;
  process_document base_path path d.
Definition visit_trace (path : string) (d : document) : list event :=
  Snapshot (child_path path (doc_id d)) :: doc_trace path d.

(** The subcollections the loop of [process_document] gets to: the
    exception of a stream leaves [process_collection] through its handler,
    and ends the loop. *)
Fixpoint reached (cs : list collection) : list collection :=
  match cs with
  | [] => []
  | c :: cs' =>
      c :: match col_fault c with
           | Some _ => []
           | None => reached cs'
           end
  end.

Definition streams_fail (cs : list collection) : bool :=
  existsb (λ c, bool_decide (is_Some (col_fault c))) cs.

(** the events of the loop over the subcollections [cs] of the document at
    [path], and what the handler of [process_document] prints after it *)
Definition descent (path : string) (cs : list collection) : list event :=
  flat_map (λ c, col_trace (child_path path (col_id c)) c) (reached cs).
Definition loop_error (path : string) (cs : list collection) : list event :=
  if streams_fail cs
  then [Print (document_error_line path attribute_error_path)]
  else [].

(** the [try] block of [process_document] *)
Definition document_body (col_path : string) (d : document) : io unit :=
  let path := child_path col_path (doc_id d) in
  emit (Get path) ;;
  match doc_get d with
  | Raises msg => raise msg
  | Returns Absent => print (missing_line path)
  | Returns (Present fields) =>
      makedirs (OsPath.dirname (dir_path base_path path)) ;;
      write_json DataFile (file_path base_path path) (document_text fields) ;;
      print (saved_line path (file_path base_path path)) ;;
      emit (ListCollections path) ;;
      match doc_collections d with
      | Raises msg => raise msg
      | Returns [] => mret tt
      | Returns cs =>
          write_json ManifestFile (subcollections_path base_path path)
                     (manifest_text (get_all_subcollections cs)) ;;
          for_each (λ c, process_collection base_path
                           (child_path path (col_id c)) c) cs
      end
  end.

(** the [try] block of [process_collection] *)
Definition collection_body (path : string) (c : collection) : io unit :=
  emit (Stream path) ;;
  for_each (visit path) (col_stream c) ;;
  match col_fault c with
  | Some msg => raise msg
  | None => mret tt
  end.

(** how [process_collection] ends *)
Definition collection_result (c : collection) : raised unit :=
  match col_fault c with
  | Some _ => Raises attribute_error_path
  | None => Returns tt
  end.

End Blocks.

(** [retrieve_collection_with_subcollections]; the name given is the id of
    [root], the tree below the reference [db.collection(name)] returns. *)
Definition retrieve_collection_with_subcollections
    (root : collection) (output_dir : string) : io unit :=
  (if negb (exists_before output_dir)
   then makedirs output_dir ;;
        print ("Created directory: " +:+ output_dir)
   else mret tt) ;;
  db_collection (col_id root) ;;
  process_collection output_dir (col_id root) root ;;
  print ("Retrieved collection '" +:+ col_id root
           +:+ "' with all subcollections").

End Exporter.
End Exporter.
Import Exporter.

(** ** The files a sequence of events leaves *)

Definition apply_event (fs : gmap string string) (e : event)
    : gmap string string :=
  match e with
  | Write _ file text => <[file := text]> fs
  | _ => fs
  end.

Definition files_after (t : list event) (fs : gmap string string)
    : gmap string string :=
  fold_left apply_event t fs.

(** The paths written, by kind of file, in program order. *)
Definition written (k : file_kind) (t : list event) : list string :=
  omap (λ e, match e with
             | Write k' file _ => if decide (k' = k) then Some file else None
             | _ => None
             end) t.

Definition all_written (t : list event) : list string :=
  omap (λ e, match e with Write _ file _ => Some file | _ => None end) t.

Definition gets (t : list event) : list string :=
  omap (λ e, match e with Get p => Some p | _ => None end) t.

Definition streams (t : list event) : list string :=
  omap (λ e, match e with Stream p => Some p | _ => None end) t.

Definition snapshots (t : list event) : list string :=
  omap (λ e, match e with Snapshot p => Some p | _ => None end) t.

(** The documents read from the store, by a stream or by [get()]. *)
Definition reads (t : list event) : list string :=
  omap (λ e, match e with
             | Snapshot p | Get p => Some p
             | _ => None
             end) t.

Definition prints (t : list event) : list string :=
  omap (λ e, match e with Print l => Some l | _ => None end) t.

(** ** Vocabulary of the specification *)

(** The kinds of special value, as the encoder tells them apart. *)
Definition timestamp_like (o : pyobj) : bool :=
  has_timestamp o || is_datetime o.

Definition store_specific (o : pyobj) : bool :=
  has_document_path o
  || String.prefix FirestoreEncoder.firestore_class_prefix (type_str o).

(** A document or collection id of the store: not empty, no slash. *)
Definition valid_id (s : string) : bool :=
  negb (PyStr.is_empty s) && negb (PyStr.has_sep s).

(** A store path: none of its segments is empty. *)
Definition valid_path (p : string) : bool :=
  forallb (λ s, negb (PyStr.is_empty s)) (PyStr.split p).

(** The store's path uniqueness: below a node, ids are valid and no two
    siblings share one. *)
Fixpoint doc_ok (d : document) : bool :=
  match d with
  | Document id _ collections =>
      valid_id id &&
      match collections with
      | Raises _ => true
      | Returns cs =>
          bool_decide (NoDup (col_id <$> cs)) &&
          (fix all (l : list collection) : bool :=
             match l with
             | [] => true
             | c :: l' => (valid_id (col_id c) && col_ok c) && all l'
             end) cs
      end
  end
with col_ok (c : collection) : bool :=
  match c with
  | Collection _ ds _ =>
      bool_decide (NoDup (doc_id <$> ds)) &&
      (fix all (l : list document) : bool :=
         match l with
         | [] => true
         | d :: l' => doc_ok d && all l'
         end) ds
  end.

(** [base_path] as [os.path.join] continues it *)
Definition with_sep (base : string) : string :=
  if PyStr.is_empty base || PyStr.endswith_sep base then base
  else base +:+ "/".

(** The [Write] events, in program order. *)
Definition writes (t : list event) : list (file_kind * string * string) :=
  omap (λ e, match e with
             | Write k file text => Some (k, file, text)
             | _ => None
             end) t.

(** How often [p] stands in a list of paths. *)
Definition occurrences (p : string) (l : list string) : nat :=
  length (filter (λ x, x = p) l).

(** What a document that descends into nothing leaves in the trace: its own
    fetch, at most its own data file, no manifest, no stream. *)
Definition own_only (base_path path : string) (t : list event) : Prop :=
  gets t = [path] ∧ streams t = [] ∧ snapshots t = [] ∧
  written ManifestFile t = [] ∧
  (written DataFile t = [] ∨ written DataFile t = [file_path base_path path]).

(** The events of a document that is exported in full, up to the descent
    into its subcollections. *)
Definition exported_events (base_path path text manifest : string)
    : list event :=
  [Get path;
   Makedirs (OsPath.dirname (dir_path base_path path));
   Write DataFile (file_path base_path path) text;
   Print (saved_line path (file_path base_path path));
   ListCollections path;
   Write ManifestFile (subcollections_path base_path path) manifest].

(** [s] is the path [parent/id], or continues it below a slash. *)
Definition below (parent id s : string) : Prop :=
  ∃ rest, s = child_path parent id +:+ rest ∧
          (rest = EmptyString ∨ PyStr.startswith_sep rest = true).

(** What the traversal of a well-formed subtree guarantees of its events:
    no path is fetched or streamed twice, the paths fetched and streamed lie
    where [fetched] and [streamed] say, and every data file or manifest
    written belongs to a path fetched, in the same order. *)
Definition visit_inv (base_path : string) (fetched streamed : string → Prop)
    (t : list event) : Prop :=
  NoDup (gets t) ∧ NoDup (streams t) ∧
  (∀ g, g ∈ gets t → fetched g ∧ valid_path g = true) ∧
  (∀ g, g ∈ streams t → streamed g) ∧
  sublist (written DataFile t) (file_path base_path <$> gets t) ∧
  sublist (written ManifestFile t) (subcollections_path base_path <$> gets t).


(** The fields of a document that exists. *)
Definition doc_fields (d : document) : list (string * pyval) :=
  match doc_get d with
  | Returns (Present fields) => fields
  | _ => []
  end.

(** A document that exists, whose fields the encoder accepts, and that has no
    subcollection. *)
Definition exportable_leaf (d : document) : bool :=
  match doc_get d, doc_collections d with
  | Returns (Present fields), Returns [] =>
      bool_decide ((document_text fields).2 = None)
  | _, _ => false
  end.

(** The text of the last write to [file] among [ws], if any. *)
Fixpoint last_write (file : string) (ws : list (file_kind * string * string))
    : option string :=
  match ws with
  | [] => None
  | (_, f, text) :: ws' =>
      match last_write file ws' with
      | Some later => Some later
      | None => if decide (f = file) then Some text else None
      end
  end.

Definition everything_exists : string → bool := λ _, true.

(** The invariant at a document and at a collection of a well-formed store. *)
Definition doc_visit (makedirs_fault open_fault : string → option string)
    (base_path : string) (d : document) : Prop :=
  ∀ col_path, valid_path col_path = true → doc_ok d = true →
    visit_inv base_path (below col_path (doc_id d)) (below col_path (doc_id d))
      (doc_trace makedirs_fault open_fault base_path col_path d).

Definition col_visit (makedirs_fault open_fault : string → option string)
    (base_path : string) (c : collection) : Prop :=
  ∀ q, valid_path q = true → col_ok c = true →
    visit_inv base_path
      (λ g, ∃ d, d ∈ col_stream c ∧ below q (doc_id d) g)
      (λ g, g = q ∨ ∃ d, d ∈ col_stream c ∧ below q (doc_id d) g)
      (col_trace makedirs_fault open_fault base_path q c).

(** ** Sample values *)

Definition no_isoformat (cls : string) : raised string :=
  Raises ("'" +:+ cls +:+ "' object has no attribute 'isoformat'").

Definition timestamp_value : pyobj :=
  {| has_timestamp := true; is_datetime := true;
     isoformat := Returns "2024-05-01T12:00:00+00:00";
     path_attr := None; has_document_path := false;
     type_str := "<class 'google.api_core.datetime_helpers.DatetimeWithNanoseconds'>";
     class_name := "DatetimeWithNanoseconds";
     str_text := "2024-05-01 12:00:00+00:00" |}.

(** a reference to [users/u1], an object at [address] *)
Definition reference_at (address : string) : pyobj :=
  {| has_timestamp := false; is_datetime := false;
     isoformat := no_isoformat "DocumentReference";
     path_attr := Some "users/u1"; has_document_path := true;
     type_str := "<class 'google.cloud.firestore_v1.document.DocumentReference'>";
     class_name := "DocumentReference";
     str_text := "<google.cloud.firestore_v1.document.DocumentReference object at "
                 +:+ address +:+ ">" |}.

Definition reference_value : pyobj := reference_at "0x7f3b2c1d4f10".

(** A [GeoPoint]: its class defines neither [__str__] nor [__repr__], so
    [str()] gives the text of [object.__repr__], which ends with the address
    the object has in the run. *)
Definition geo_point_at (address : string) : pyobj :=
  {| has_timestamp := false; is_datetime := false;
     isoformat := no_isoformat "GeoPoint";
     path_attr := None; has_document_path := false;
     type_str := "<class 'google.cloud.firestore_v1._helpers.GeoPoint'>";
     class_name := "GeoPoint";
     str_text := "<google.cloud.firestore_v1._helpers.GeoPoint object at "
                 +:+ address +:+ ">" |}.

Definition geo_point_value : pyobj := geo_point_at "0x7f3b2c1d4e50".

Definition bytes_value : pyobj :=
  {| has_timestamp := false; is_datetime := false;
     isoformat := no_isoformat "bytes";
     path_attr := None; has_document_path := false;
     type_str := "<class 'bytes'>";
     class_name := "bytes";
     str_text := "b'\x00'" |}.

(** an object with both a [timestamp] and a [path] attribute *)
Definition timestamped_reference : pyobj :=
  {| has_timestamp := true; is_datetime := false;
     isoformat := Returns "2024-05-01T12:00:00";
     path_attr := Some "users/u1"; has_document_path := false;
     type_str := "<class 'Stamped'>";
     class_name := "Stamped";
     str_text := "Stamped()" |}.


(** an object with a [timestamp] and a [path] attribute and no [isoformat]
    method *)
Definition stamped_path_value : pyobj :=
  {| has_timestamp := true; is_datetime := false;
     isoformat := no_isoformat "StampedPath";
     path_attr := Some "users/u1"; has_document_path := false;
     type_str := "<class 'StampedPath'>";
     class_name := "StampedPath";
     str_text := "StampedPath()" |}.

(** Text as a file shows it: between double quotes, and a line feed followed
    by the indentation of the next line. *)
Definition quoted (s : string) : string :=
  String "034" (s +:+ String "034" EmptyString).
Definition line_feed (indent : string) : string := String "010" indent.

(** ** Sample stores *)

Definition no_fault : string → option string := λ _, None.
Definition nothing_exists : string → bool := λ _, false.

(** the example of the specification: [users/u1] holding [{name: "Ann"}] *)
Definition users_ann : collection :=
  Collection "users"
    [Document "u1" (Returns (Present [("name", PStr "Ann")])) (Returns [])]
    None.

(** a document with a bytes field, which no branch of the encoder accepts *)
Definition blob_document (id : string) (cs : list collection) : document :=
  Document id (Returns (Present [("blob", PObj bytes_value)])) (Returns cs).

Definition users_blob : collection :=
  Collection "users" [blob_document "u1" []] None.

Definition posts_empty : collection := Collection "posts" [] None.

(** a document id that is another document's id followed by
    [_subcollections] *)
Definition users_clash : collection :=
  Collection "users"
    [Document "u1_subcollections" (Returns (Present [])) (Returns []);
     Document "u1" (Returns (Present [])) (Returns [posts_empty])]
    None.

(** a store with a failure of each kind *)
Definition users_faulty : collection :=
  Collection "users"
    [Document "u1" (Returns (Present [("name", PStr "Ann")])) (Returns []);
     blob_document "u2" [posts_empty];
     Document "u3" (Returns Absent) (Returns []);
     Document "u4" (Raises "deadline exceeded") (Returns []);
     Document "u5" (Returns (Present [("at", PObj timestamp_value)]))
       (Returns
          [Collection "posts"
             [Document "p1" (Returns (Present [("by", PObj reference_value)]))
                (Raises "unavailable")]
             (Some "stream broken")])]
    None.

(** the text of the file of a document that holds [{name: "Ann"}] *)
Definition ann_text : string :=
  "{" +:+ line_feed "  " +:+ quoted "name" +:+ ": " +:+ quoted "Ann"
      +:+ line_feed "}".

(** the stream of the root breaks after it has yielded [u1] *)
Definition users_broken : collection :=
  Collection "users"
    [Document "u1" (Returns (Present [("name", PStr "Ann")])) (Returns [])]
    (Some "503 unavailable").

(** [u1] lists [posts], whose stream breaks at once, and [tags] *)
Definition users_nested_broken : collection :=
  Collection "users"
    [Document "u1" (Returns (Present []))
       (Returns
          [Collection "posts" [] (Some "503 unavailable");
           Collection "tags"
             [Document "t1" (Returns (Present [])) (Returns [])] None]);
     Document "u2" (Returns (Present [])) (Returns [])]
    None.

(** one document [users/u1] that holds the object [o] in its field [at] *)
Definition users_at (o : pyobj) : collection :=
  Collection "users"
    [Document "u1" (Returns (Present [("at", PObj o)])) (Returns [])]
    None.

(** ** Two runs over one store

    The store gives a second run the same documents, fields and orders; the
    objects it builds for them are new ones, so what [str()] gives for an
    object of a class without [__str__] or [__repr__] is of the run. *)

(** the objects [default] answers with [str(obj)] *)
Definition written_as_str (o : pyobj) : bool :=
  negb (timestamp_like o) &&
  match path_attr o with
  | Some _ => false
  | None => store_specific o
  end.

(** A value, a snapshot and a subtree with the [str()] text of the objects
    forgotten, but for the objects [keep] selects. *)
Definition forget_str_obj (keep : pyobj → bool) (o : pyobj) : pyobj :=
  if keep o then o
  else {| has_timestamp := has_timestamp o; is_datetime := is_datetime o;
          isoformat := isoformat o; path_attr := path_attr o;
          has_document_path := has_document_path o;
          type_str := type_str o; class_name := class_name o;
          str_text := EmptyString |}.

Fixpoint forget_str_val (keep : pyobj → bool) (v : pyval) : pyval :=
  match v with
  | PList xs => PList (map (forget_str_val keep) xs)
  | PDict items =>
      PDict (map (λ '(k, x), (k, forget_str_val keep x)) items)
  | PObj o => PObj (forget_str_obj keep o)
  | _ => v
  end.

Definition forget_str_get (keep : pyobj → bool) (g : raised snapshot)
    : raised snapshot :=
  match g with
  | Returns (Present fields) =>
      Returns (Present (map (λ '(k, x), (k, forget_str_val keep x)) fields))
  | _ => g
  end.

Fixpoint forget_str_doc (keep : pyobj → bool) (d : document) : document :=
  match d with
  | Document id g collections =>
      Document id (forget_str_get keep g)
        match collections with
        | Returns cs => Returns (map (forget_str_col keep) cs)
        | Raises msg => Raises msg
        end
  end
with forget_str_col (keep : pyobj → bool) (c : collection) : collection :=
  match c with
  | Collection id ds fault => Collection id (map (forget_str_doc keep) ds) fault
  end.

(** Two runs meet the same store: all is the same but what [str()] gives. *)
Definition same_store (c1 c2 : collection) : Prop :=
  forget_str_col (λ _, false) c1 = forget_str_col (λ _, false) c2.

(** ... and [str()] gives the same text in both runs for every object that
    [default] answers with it. *)
Definition same_store_and_str (c1 c2 : collection) : Prop :=
  forget_str_col written_as_str c1 = forget_str_col written_as_str c2.

(** ** Vocabulary of the further properties *)

(** the first answer among those of [f] on [l], in order *)
Definition first_some {A} (f : A → option string) : list A → option string :=
  fix go (l : list A) : option string :=
    match l with
    | [] => None
    | x :: l' => match f x with Some e => Some e | None => go l' end
    end.

(** The message of the first object of [v], in document order, that
    [default] refuses. *)
Fixpoint first_error (default : pyobj → raised pyval) (v : pyval)
    : option string :=
  match v with
  | PList xs => first_some (first_error default) xs
  | PDict items => first_some (λ '(_, x), first_error default x) items
  | PObj o =>
      match default o with
      | Raises msg => Some msg
      | Returns _ => None
      end
  | _ => None
  end.

(** The objects inside a value, in document order. *)
Fixpoint objects (v : pyval) : list pyobj :=
  match v with
  | PList xs => flat_map objects xs
  | PDict items => flat_map (λ '(_, x), objects x) items
  | PObj o => [o]
  | _ => []
  end.

(** An object one of the four branches of [FirestoreEncoder.default]
    answers: timestamp-like with a working [isoformat()], or with a [path]
    attribute, or store-specific. *)
Definition accepted (o : pyobj) : Prop :=
  if timestamp_like o then ∃ s, isoformat o = Returns s
  else is_Some (path_attr o) ∨ store_specific o = true.

(** The paths of all the documents of a subtree, in pre-order. *)
Fixpoint document_paths (col_path : string) (d : document) : list string :=
  match d with
  | Document id _ collections =>
      child_path col_path id
      :: match collections with
         | Returns cs =>
             flat_map (λ c, collection_paths
                              (child_path (child_path col_path id) (col_id c))
                              c) cs
         | Raises _ => []
         end
  end
with collection_paths (path : string) (c : collection) : list string :=
  match c with
  | Collection _ ds _ => flat_map (document_paths path) ds
  end.

(** A subtree in which every call of the store succeeds, every document
    exists and holds only values the encoder accepts. *)
Fixpoint healthy_doc (d : document) : bool :=
  match d with
  | Document _ (Returns (Present fields)) (Returns cs) =>
      bool_decide ((document_text fields).2 = None) && forallb healthy_col cs
  | _ => false
  end
with healthy_col (c : collection) : bool :=
  match c with
  | Collection _ ds fault =>
      bool_decide (fault = None) && forallb healthy_doc ds
  end.

(** the events of the setup of [retrieve_collection_with_subcollections] *)
Definition setup_events (exists_before : string → bool) (output_dir : string)
    : list event :=
  if exists_before output_dir then []
  else [Makedirs output_dir; Print ("Created directory: " +:+ output_dir)].

Definition retrieved_line (name : string) : string :=
  "Retrieved collection '" +:+ name +:+ "' with all subcollections".

(** After every fetch, the next line printed is about the document
    fetched, and until then the run only makes the directory of the document
    and writes its data file. *)
Definition fetch_logged (base_path : string) (t : list event) : Prop :=
  ∀ t1 p t2,
    t = t1 ++ Get p :: t2 →
    ∃ own line rest,
      t2 = own ++ Print line :: rest ∧
      (line = "Document " +:+ p +:+ " does not exist" ∨
       line = "Saved document " +:+ p +:+ " to " +:+ file_path base_path p ∨
       ∃ msg, line = "Error processing document " +:+ p +:+ ": " +:+ msg) ∧
      (own = [] ∨
       own = [Makedirs (OsPath.dirname (dir_path base_path p))] ∨
       ∃ text,
         own = [Makedirs (OsPath.dirname (dir_path base_path p));
                Write DataFile (file_path base_path p) text]).

(** Every data file written is that of a document fetched earlier in the
    trace, after its directory was made. *)
Definition data_guarded (base_path : string) (t : list event) : Prop :=
  ∀ t1 f text t2,
    t = t1 ++ Write DataFile f text :: t2 →
    ∃ p, f = file_path base_path p ∧ Get p ∈ t1 ∧
         Makedirs (OsPath.dirname (dir_path base_path p)) ∈ t1.

(** the pre-order listing bounds what is fetched and written *)
Definition within_store (base_path : string) (paths : list string)
    (t : list event) : Prop :=
  gets t `sublist_of` paths ∧
  written DataFile t `sublist_of` (file_path base_path <$> paths) ∧
  written ManifestFile t `sublist_of` (subcollections_path base_path <$> paths).

(** what a healthy subtree leaves: every document fetched, written and
    reported saved, in pre-order *)
Definition exported_all (base_path : string) (paths : list string)
    (t : list event) : Prop :=
  gets t = paths ∧
  written DataFile t = file_path base_path <$> paths ∧
  prints t = (λ p, saved_line p (file_path base_path p)) <$> paths.

(** Every line that reports a document saved comes right after the write of
    that document's data file, and the write was in full. *)
Definition saved_guarded (base_path : string) (t : list event) : Prop :=
  ∀ t1 line t2,
    t = t1 ++ Print line :: t2 →
    String.prefix "Saved" line = true →
    ∃ p fields text t0,
      line = saved_line p (file_path base_path p) ∧
      document_text fields = (text, None) ∧
      t1 = t0 ++ [Write DataFile (file_path base_path p) text].

(** a healthy store, two levels deep *)
Definition users_healthy : collection :=
  Collection "users"
    [Document "u1" (Returns (Present [("name", PStr "Ann")]))
       (Returns
          [Collection "posts"
             [Document "p1" (Returns (Present [("at", PObj timestamp_value)]))
                (Returns []);
              Document "p2" (Returns (Present [("by", PObj reference_value)]))
                (Returns [])]
             None;
           Collection "tags" [] None]);
     Document "u2" (Returns (Present [])) (Returns [])]
    None.

(** ** Induction on a value *)

Section ValueInduction.
Variable P : pyval → Prop.
Hypothesis Hnone : P PNone.
Hypothesis Hbool : ∀ b, P (PBool b).
Hypothesis Hint : ∀ z, P (PInt z).
Hypothesis Hfloat : ∀ r, P (PFloat r).
Hypothesis Hstr : ∀ s, P (PStr s).
Hypothesis Hlist : ∀ xs, Forall P xs → P (PList xs).
Hypothesis Hdict : ∀ items, Forall (λ kv, P kv.2) items → P (PDict items).
Hypothesis Hobj : ∀ o, P (PObj o).

Fixpoint pyval_tree_ind (v : pyval) : P v :=
  match v with
  | PNone => Hnone
  | PBool b => Hbool b
  | PInt z => Hint z
  | PFloat r => Hfloat r
  | PStr s => Hstr s
  | PList xs =>
      Hlist xs
        ((fix all (l : list pyval) : Forall P l :=
            match l with
            | [] => List.Forall_nil P
            | x :: l' => List.Forall_cons P x l' (pyval_tree_ind x) (all l')
            end) xs)
  | PDict items =>
      Hdict items
        ((fix all (l : list (string * pyval)) : Forall (λ kv, P kv.2) l :=
            match l with
            | [] => List.Forall_nil (λ kv, P kv.2)
            | kv :: l' =>
                List.Forall_cons (λ kv, P kv.2) kv l'
                  (pyval_tree_ind kv.2) (all l')
            end) items)
  | PObj o => Hobj o
  end.

End ValueInduction.

(** ** Induction on the store *)

Section TreeInduction.
Variables (P : document → Prop) (Q : collection → Prop).
Hypothesis Hraises : ∀ id g msg, P (Document id g (Raises msg)).
Hypothesis Hreturns : ∀ id g cs, Forall Q cs → P (Document id g (Returns cs)).
Hypothesis Hcollection : ∀ id ds f, Forall P ds → Q (Collection id ds f).

Fixpoint document_tree_ind (d : document) : P d :=
  match d with
  | Document id g (Raises msg) => Hraises id g msg
  | Document id g (Returns cs) =>
      Hreturns id g cs
        ((fix all (l : list collection) : Forall Q l :=
            match l with
            | [] => List.Forall_nil Q
            | c :: l' => List.Forall_cons Q c l' (collection_tree_ind c) (all l')
            end) cs)
  end
with collection_tree_ind (c : collection) : Q c :=
  match c with
  | Collection id ds f =>
      Hcollection id ds f
        ((fix all (l : list document) : Forall P l :=
            match l with
            | [] => List.Forall_nil P
            | d :: l' => List.Forall_cons P d l' (document_tree_ind d) (all l')
            end) ds)
  end.

End TreeInduction.

(** * Properties *)

(** ** The monad *)

Lemma for_each_returns {A} (f : A → io unit) (l : list A) :
  (∀ x, x ∈ l → (f x).2 = Returns tt) →
  for_each f l = (flat_map (λ x, (f x).1) l, Returns tt).
Proof.
  induction l as [|x l IH]; intros Hf; [done|].
  cbn [for_each flat_map]. unfold mbind, io_bind.
  pose proof (Hf x (list_elem_of_here _ _)) as Hx.
  destruct (f x) as [t [[]|msg]]; [|done].
  rewrite IH; [done|]. intros y Hy. apply Hf. by right.
Qed.

Lemma try_except_print_returns (body : io unit) (line : string → string) :
  (try_except body (λ msg, print (line msg))).2 = Returns tt.
Proof. by destruct body as [t [[]|msg]]. Qed.

(** ** The traversal, loop by loop *)

Section Traversal.

Variable makedirs_fault : string → option string.
Variable open_fault : string → option string.
Variable base_path : string.

Abbreviation process_document := (process_document makedirs_fault open_fault base_path).
Abbreviation process_collection := (process_collection makedirs_fault open_fault base_path).
Abbreviation doc_trace := (doc_trace makedirs_fault open_fault base_path).
Abbreviation col_trace := (col_trace makedirs_fault open_fault base_path).
Abbreviation document_body := (document_body makedirs_fault open_fault base_path).
Abbreviation collection_body := (collection_body makedirs_fault open_fault base_path).
Abbreviation visit := (visit makedirs_fault open_fault base_path).
Abbreviation visit_trace := (visit_trace makedirs_fault open_fault base_path).
Abbreviation descent := (descent makedirs_fault open_fault base_path).

Lemma each_collection_loop path cs :
  (fix each (l : list collection) : io unit :=
     match l with
     | [] => mret tt
     | c :: l' => process_collection (child_path path (col_id c)) c ;; each l'
     end) cs =
  for_each (λ c, process_collection (child_path path (col_id c)) c) cs.
Proof. induction cs as [|c cs IH]; [done|]. cbn [for_each]. by rewrite <- IH. Qed.

Lemma each_document_loop path ds :
  (fix each (l : list document) : io unit :=
     match l with
     | [] => mret tt
     | d :: l' =>
         emit (Snapshot (child_path path (doc_id d))) ;;
         process_document path d ;;
         each l'
     end) ds =
  for_each (visit path) ds.
Proof.
  induction ds as [|d ds IH]; [done|]. cbn [for_each]. rewrite <- IH.
  unfold Exporter.visit, mbind, io_bind, emit.
  by destruct (process_document path d) as [t [[]|msg]].
Qed.

Lemma process_document_eq col_path d :
  process_document col_path d =
  try_except (document_body col_path d)
    (λ msg, print (document_error_line (child_path col_path (doc_id d)) msg)).
Proof.
  destruct d as [id g cs]. unfold Exporter.document_body.
  cbn [doc_id doc_get doc_collections].
  destruct g as [[|fields]|msg]; try reflexivity.
  destruct cs as [[|c cs]|msg]; try reflexivity.
  rewrite <- each_collection_loop. reflexivity.
Qed.

Lemma process_collection_eq path c :
  process_collection path c =
  try_except (collection_body path c)
    (λ msg, p ← collection_ref_path path;
            print (collection_error_line p msg)).
Proof.
  destruct c as [id ds f]. unfold Exporter.collection_body.
  cbn [col_stream col_fault].
  rewrite <- each_document_loop. reflexivity.
Qed.

Lemma process_document_returns col_path d :
  (process_document col_path d).2 = Returns tt.
Proof. rewrite process_document_eq. apply try_except_print_returns. Qed.

Lemma process_document_trace col_path d :
  process_document col_path d = (doc_trace col_path d, Returns tt).
Proof.
  unfold Exporter.doc_trace. pose proof (process_document_returns col_path d).
  by destruct (process_document col_path d) as [t r]; simplify_eq/=.
Qed.

Lemma visit_eq path d : visit path d = (visit_trace path d, Returns tt).
Proof.
  unfold Exporter.visit, Exporter.visit_trace.
  by rewrite process_document_trace.
Qed.

Lemma for_each_documents path ds :
  for_each (visit path) ds = (flat_map (visit_trace path) ds, Returns tt).
Proof.
  rewrite (for_each_returns (visit path)).
  - reflexivity.
  - intros d _. by rewrite visit_eq.
Qed.

(** The exception of a stream is raised after the documents it yielded have
    been processed; the handler then reads [collection_ref.path], and the
    [AttributeError] of that leaves [process_collection]. *)
Lemma process_collection_trace path c :
  process_collection path c =
  (Stream path :: flat_map (visit_trace path) (col_stream c),
   collection_result c).
Proof.
  rewrite process_collection_eq. unfold Exporter.collection_body.
  rewrite for_each_documents. unfold collection_result, mbind, io_bind, emit.
  destruct (col_fault c); cbn; by rewrite ?app_nil_r.
Qed.

Lemma col_trace_eq path c :
  col_trace path c = Stream path :: flat_map (visit_trace path) (col_stream c).
Proof. unfold Exporter.col_trace. by rewrite process_collection_trace. Qed.

Lemma for_each_collections path cs :
  for_each (λ c, process_collection (child_path path (col_id c)) c) cs =
  (descent path cs,
   if streams_fail cs then Raises attribute_error_path else Returns tt).
Proof.
  unfold Exporter.descent. induction cs as [|c cs IH]; [done|].
  cbn [for_each reached streams_fail existsb flat_map].
  rewrite IH, process_collection_trace, col_trace_eq.
  unfold collection_result, mbind, io_bind.
  destruct (col_fault c) as [msg|]; cbn; by rewrite ?app_nil_r.
Qed.

End Traversal.

(** ** Appending strings *)

Lemma str_app_cons c s t : String c s +:+ t = String c (s +:+ t).
Proof. reflexivity. Qed.

Lemma str_app_nil_l s : EmptyString +:+ s = s.
Proof. reflexivity. Qed.

Lemma str_app_nil_r s : s +:+ EmptyString = s.
Proof. induction s as [|c s IH]; [done|]. by rewrite str_app_cons, IH. Qed.

Lemma str_app_assoc s t u : (s +:+ t) +:+ u = s +:+ (t +:+ u).
Proof. induction s as [|c s IH]; [done|]. by rewrite !str_app_cons, IH. Qed.

(** ** The encoder *)

Section EncoderFacts.
Import FirestoreEncoder.

Lemma default_timestamp_like o :
  timestamp_like o = true → default o = call_isoformat o.
Proof.
  unfold timestamp_like, default.
  destruct (has_timestamp o), (is_datetime o); done.
Qed.



End EncoderFacts.




(** C10 (as stated, it fails for an object whose [isoformat()] raises). The
    checks of [default] are tried in a fixed order: [timestamp] attribute,
    [datetime] instance, [path] attribute, store-specific fallback, and the
    first that holds decides. So an object with both a [timestamp] and a
    [path] attribute is answered by its [isoformat()], with the text it
    returns or with the exception it raises, and never by the tagged
    reference. *)
Theorem encoder_timestamp_before_path (level : nat) (o : pyobj) :
  has_timestamp o = true → is_Some (path_attr o) →
  FirestoreEncoder.default o =
    match isoformat o with
    | Returns s => Returns (PStr s)
    | Raises msg => Raises msg
    end ∧
  Json.encode_object FirestoreEncoder.default level o =
    match isoformat o with
    | Returns s => (Json.encoder s, None)
    | Raises msg => (EmptyString, Some msg)
    end ∧
  (∀ v, FirestoreEncoder.default o = Returns v →
        ∃ s, isoformat o = Returns s ∧ v = PStr s) ∧
  (∀ p, FirestoreEncoder.default o ≠
        Returns (PDict [("__firestore_reference__", PBool true);
                        ("path", PStr p)])) ∧
  (∀ o',
     (has_timestamp o' = false → is_datetime o' = true →
        FirestoreEncoder.default o' =
        match isoformat o' with
        | Returns s => Returns (PStr s)
        | Raises msg => Raises msg
        end) ∧
     (has_timestamp o' = false → is_datetime o' = false →
        ∀ p, path_attr o' = Some p →
          FirestoreEncoder.default o' =
          Returns (PDict [("__firestore_reference__", PBool true);
                          ("path", PStr p)])) ∧
     (has_timestamp o' = false → is_datetime o' = false →
        path_attr o' = None → store_specific o' = true →
        FirestoreEncoder.default o' = Returns (PStr (str_text o'))) ∧
     (has_timestamp o' = false → is_datetime o' = false →
        path_attr o' = None → store_specific o' = false →
        FirestoreEncoder.default o' =
        Raises ("Object of type " +:+ class_name o'
                  +:+ " is not JSON serializable"))).
Proof.
  intros Hts _.
  assert (FirestoreEncoder.default o =
          match isoformat o with
          | Returns s => Returns (PStr s)
          | Raises msg => Raises msg
          end) as Hd.
  { rewrite default_timestamp_like; [done|].
    unfold timestamp_like. by rewrite Hts. }
  split_and!.
  - done.
  - unfold Json.encode_object. rewrite Hd. by destruct (isoformat o).
  - intros v. rewrite Hd. destruct (isoformat o) as [s|msg]; [|done].
    intros [= <-]. by exists s.
  - intros p. rewrite Hd. by destruct (isoformat o).
  - intros o'. unfold FirestoreEncoder.default, store_specific.
    split_and!.
    + by intros -> ->.
    + by intros -> -> p ->.
    + by intros -> -> -> ->.
    + by intros -> -> -> ->.
Qed.

Lemma encoder_timestamp_before_path_witness :
  FirestoreEncoder.default timestamped_reference =
    Returns (PStr "2024-05-01T12:00:00") ∧
  Json.encode_object FirestoreEncoder.default 1 timestamped_reference =
    (quoted "2024-05-01T12:00:00", None).
Proof.
  destruct (encoder_timestamp_before_path 1 timestamped_reference eq_refl
              (mk_is_Some _ _ eq_refl)) as (H1 & H2 & _).
  split; [apply H1|apply H2].
Defined.

(** C10, where the sentence of the specification fails: an object with a
    [timestamp] and a [path] attribute and no [isoformat] method is given no
    text, the encoder raises. *)
Lemma timestamp_and_path_without_isoformat :
  has_timestamp stamped_path_value = true ∧
  path_attr stamped_path_value = Some "users/u1" ∧
  FirestoreEncoder.default stamped_path_value =
    Raises "'StampedPath' object has no attribute 'isoformat'" ∧
  (∀ v, FirestoreEncoder.default stamped_path_value ≠ Returns v) ∧
  Json.encode_object FirestoreEncoder.default 1 stamped_path_value =
    (EmptyString, Some "'StampedPath' object has no attribute 'isoformat'").
Proof. by split_and!. Qed.

(** ** Failures *)

(** C2 (the code departs from it). When a stream fails, the handler of
    [process_collection] reads [collection_ref.path] to build its line; a
    collection reference has no such attribute, so the handler raises and
    prints nothing. At the root the exception ends the run, after the
    documents the stream had yielded; below a document it ends the loop over
    the subcollections, and is printed as an error of that document. *)
Theorem stream_failure_is_not_logged :
  retrieve_collection_with_subcollections no_fault no_fault nothing_exists
    users_broken "out" =
  ([Makedirs "out"; Print "Created directory: out";
    Stream "users"; Snapshot "users/u1"; Get "users/u1";
    Makedirs "out/users"; Write DataFile "out/users/u1.json" ann_text;
    Print "Saved document users/u1 to out/users/u1.json";
    ListCollections "users/u1"],
   Raises "'CollectionReference' object has no attribute 'path'") ∧
  retrieve_collection_with_subcollections no_fault no_fault nothing_exists
    users_nested_broken "out" =
  ([Makedirs "out"; Print "Created directory: out";
    Stream "users"; Snapshot "users/u1"; Get "users/u1";
    Makedirs "out/users"; Write DataFile "out/users/u1.json" "{}";
    Print "Saved document users/u1 to out/users/u1.json";
    ListCollections "users/u1";
    Write ManifestFile "out/users/u1_subcollections.json"
      ("[" +:+ line_feed "  " +:+ quoted "posts" +:+ ","
           +:+ line_feed "  " +:+ quoted "tags" +:+ line_feed "]");
    Stream "users/u1/posts";
    Print "Error processing document users/u1: 'CollectionReference' object has no attribute 'path'";
    Snapshot "users/u2"; Get "users/u2";
    Makedirs "out/users"; Write DataFile "out/users/u2.json" "{}";
    Print "Saved document users/u2 to out/users/u2.json";
    ListCollections "users/u2";
    Print "Retrieved collection 'users' with all subcollections"],
   Returns tt).
Proof. split; reflexivity. Qed.

Example users_faulty_log :
  prints (retrieve_collection_with_subcollections no_fault no_fault
            nothing_exists users_faulty "out").1 =
  ["Created directory: out";
   "Saved document users/u1 to out/users/u1.json";
   "Error processing document users/u2: Object of type bytes is not JSON serializable";
   "Document users/u3 does not exist";
   "Error processing document users/u4: deadline exceeded";
   "Saved document users/u5 to out/users/u5.json";
   "Saved document users/u5/posts/p1 to out/users/u5/posts/p1.json";
   "Error processing document users/u5/posts/p1: unavailable";
   "Error processing document users/u5: 'CollectionReference' object has no attribute 'path'";
   "Retrieved collection 'users' with all subcollections"].
Proof. reflexivity. Qed.

(** C6. For a document whose snapshot does not exist, [process_document]
    fetches it, prints [Document <path> does not exist] and returns: no
    directory is made and no file is written. The documents the stream
    yields after it are processed as if it had not been there. *)
Theorem missing_document_is_skipped
    (makedirs_fault open_fault : string → option string)
    (base_path col_path id : string) (cs : raised (list collection)) :
  let d := Document id (Returns Absent) cs in
  let path := col_path +:+ "/" +:+ id in
  process_document makedirs_fault open_fault base_path col_path d =
    ([Get path; Print ("Document " +:+ path +:+ " does not exist")],
     Returns tt) ∧
  writes (doc_trace makedirs_fault open_fault base_path col_path d) = [] ∧
  (∀ fs, files_after (doc_trace makedirs_fault open_fault base_path col_path d)
           fs = fs) ∧
  (∀ cid before after fault,
     col_trace makedirs_fault open_fault base_path col_path
       (Collection cid (before ++ d :: after) fault) =
     Stream col_path
       :: flat_map (visit_trace makedirs_fault open_fault base_path col_path)
            before
       ++ [Snapshot path; Get path;
           Print ("Document " +:+ path +:+ " does not exist")]
       ++ flat_map (visit_trace makedirs_fault open_fault base_path col_path)
            after).
Proof.
  intros d path.
  assert (process_document makedirs_fault open_fault base_path col_path d =
          ([Get path; Print ("Document " +:+ path +:+ " does not exist")],
           Returns tt)) as Hd
    by reflexivity.
  split; [done|]. unfold doc_trace. rewrite Hd.
  split; [done|]. split; [done|].
  intros cid before after fault.
  rewrite col_trace_eq. cbn [col_stream].
  rewrite flat_map_app. cbn [flat_map]. unfold visit_trace at 2.
  unfold doc_trace. rewrite Hd. reflexivity.
Qed.

(** ** Strings and paths *)

Section StringFacts.
Import PyStr.

Lemma str_length_app s t :
  String.length (s +:+ t) = String.length s + String.length t.
Proof. induction s as [|c s IH]; [done|]. rewrite str_app_cons. cbn. by rewrite IH. Qed.

Lemma str_app_inv_tail s t u : s +:+ u = t +:+ u → s = t.
Proof.
  revert t. induction s as [|c s IH]; intros [|c' t] H.
  - done.
  - apply (f_equal String.length) in H.
    rewrite str_app_nil_l, str_length_app in H. cbn in H. lia.
  - apply (f_equal String.length) in H.
    rewrite str_app_nil_l, str_length_app in H. cbn in H. lia.
  - rewrite !str_app_cons in H. injection H as -> H. f_equal. by apply IH.
Qed.

Lemma str_app_inv_head s t u : s +:+ t = s +:+ u → t = u.
Proof. apply String.app_inj. Qed.

Lemma str_app_neq_self s t : t ≠ EmptyString → s +:+ t ≠ s.
Proof.
  intros Ht H. apply (f_equal String.length) in H. rewrite str_length_app in H.
  destruct t; [done|]. cbn in H. lia.
Qed.

Lemma is_empty_app s t : is_empty (s +:+ t) = is_empty s && is_empty t.
Proof. by destruct s. Qed.

Lemma has_sep_app s t : has_sep (s +:+ t) = has_sep s || has_sep t.
Proof.
  induction s as [|c s IH]; [done|]. rewrite str_app_cons. cbn.
  rewrite IH. by rewrite orb_assoc.
Qed.

Lemma endswith_sep_app s t :
  is_empty t = false → endswith_sep (s +:+ t) = endswith_sep t.
Proof.
  intros Ht. induction s as [|c s IH]; [done|].
  rewrite str_app_cons. cbn. rewrite IH.
  destruct (s +:+ t) eqn:E; [|done].
  apply (f_equal is_empty) in E. rewrite is_empty_app, Ht in E.
  by rewrite andb_false_r in E.
Qed.

Lemma endswith_sep_free s : has_sep s = false → endswith_sep s = false.
Proof.
  induction s as [|c s IH]; [done|]. cbn.
  intros [Hc Hs]%orb_false_elim. destruct s; [done|]. by apply IH.
Qed.

Lemma startswith_sep_free s : has_sep s = false → startswith_sep s = false.
Proof. destruct s; [done|]. cbn. by intros [Hc _]%orb_false_elim. Qed.

Lemma valid_id_spec s :
  valid_id s = true ↔ is_empty s = false ∧ has_sep s = false.
Proof.
  unfold valid_id. rewrite andb_true_iff, !negb_true_iff. done.
Qed.

(** *** [split] *)

Lemma split_not_nil s : split s ≠ [].
Proof.
  destruct s as [|c s]; [done|]. cbn.
  destruct (Ascii.eqb c sep); [done|]. by destruct (split s).
Qed.

Lemma split_app_sep a b :
  split (a +:+ String sep b) = split a ++ split b.
Proof.
  induction a as [|c a IH].
  { rewrite str_app_nil_l. cbn [split]. by rewrite Ascii.eqb_refl. }
  rewrite str_app_cons. cbn [split]. rewrite IH.
  destruct (Ascii.eqb c sep); [done|].
  pose proof (split_not_nil a). by destruct (split a).
Qed.

Lemma split_sep_free s : has_sep s = false → split s = [s].
Proof.
  induction s as [|c s IH]; [done|]. cbn.
  intros [-> Hs]%orb_false_elim. by rewrite IH.
Qed.

Lemma split_segments_sep_free s : Forall (λ x, has_sep x = false) (split s).
Proof.
  induction s as [|c s IH]; [by repeat constructor|]. cbn.
  destruct (Ascii.eqb c sep) eqn:Hc; [by constructor|].
  pose proof (split_not_nil s). destruct (split s) as [|h t]; [done|].
  inversion_clear IH. constructor; [|done]. cbn. by rewrite Hc.
Qed.

Lemma join_cons x y l : join (x :: y :: l) = x +:+ chr sep +:+ join (y :: l).
Proof. reflexivity. Qed.

Lemma join_split s : join (split s) = s.
Proof.
  induction s as [|c s IH]; [done|]. cbn [split].
  pose proof (split_not_nil s) as Hne.
  destruct (Ascii.eqb c sep) eqn:Hc.
  - apply Ascii.eqb_eq in Hc as ->.
    destruct (split s) as [|h t]; [done|]. by rewrite join_cons, IH.
  - destruct (split s) as [|h t]; [done|].
    destruct t as [|h' t].
    + cbn [join] in *. by rewrite IH.
    + rewrite join_cons in *. by rewrite str_app_cons, IH.
Qed.

Lemma valid_path_child q id :
  valid_path q = true → valid_id id = true →
  valid_path (child_path q id) = true.
Proof.
  unfold valid_path, child_path. intros Hq [Hne Hfree]%valid_id_spec.
  change ("/" +:+ id) with (String sep id).
  rewrite split_app_sep, forallb_app, Hq, (split_sep_free id Hfree). cbn.
  by rewrite Hne.
Qed.

(** *** [os.path.join] *)

Lemma join_step_segment acc s :
  is_empty s = false → has_sep s = false →
  OsPath.join_step acc s = with_sep acc +:+ s.
Proof.
  intros Hne Hfree. unfold OsPath.join_step, with_sep.
  rewrite (startswith_sep_free s Hfree).
  destruct (is_empty acc || endswith_sep acc); [done|].
  by rewrite str_app_assoc.
Qed.

Lemma with_sep_segment acc s :
  is_empty s = false → has_sep s = false →
  with_sep (acc +:+ s) = (acc +:+ s) +:+ "/".
Proof.
  intros Hne Hfree. unfold with_sep.
  rewrite is_empty_app, Hne, andb_false_r.
  by rewrite (endswith_sep_app acc s Hne), (endswith_sep_free s Hfree).
Qed.

Lemma os_path_join_segments acc segs :
  segs ≠ [] →
  Forall (λ s, is_empty s = false) segs →
  Forall (λ s, has_sep s = false) segs →
  OsPath.join acc segs = with_sep acc +:+ join segs.
Proof.
  unfold OsPath.join. revert acc.
  induction segs as [|s segs IH]; intros acc Hne Hnon Hfree; [done|].
  inversion_clear Hnon as [|?? Hs Hnon']. inversion_clear Hfree as [|?? Hf Hfree'].
  cbn [fold_left]. rewrite (join_step_segment acc s Hs Hf).
  destruct segs as [|s' segs]; [done|].
  rewrite IH; [|done..]. rewrite (with_sep_segment _ s Hs Hf).
  rewrite join_cons. by rewrite !str_app_assoc.
Qed.

Lemma valid_path_segments p :
  valid_path p = true → Forall (λ s, is_empty s = false) (split p).
Proof.
  unfold valid_path. rewrite forallb_forall, Forall_forall.
  intros H s Hs. apply negb_true_iff, H. by apply list_elem_of_In.
Qed.

Lemma dir_path_valid base p :
  valid_path p = true → dir_path base p = with_sep base +:+ p.
Proof.
  intros Hp. unfold dir_path.
  rewrite os_path_join_segments.
  - by rewrite join_split.
  - apply split_not_nil.
  - by apply valid_path_segments.
  - apply split_segments_sep_free.
Qed.

Lemma file_path_valid base p :
  valid_path p = true → file_path base p = with_sep base +:+ p +:+ ".json".
Proof. intros Hp. unfold file_path. by rewrite dir_path_valid, str_app_assoc. Qed.

Lemma subcollections_path_valid base p :
  valid_path p = true →
  subcollections_path base p = with_sep base +:+ p +:+ "_subcollections.json".
Proof.
  intros Hp. unfold subcollections_path. by rewrite dir_path_valid, str_app_assoc.
Qed.

Lemma file_path_inj base p1 p2 :
  valid_path p1 = true → valid_path p2 = true →
  file_path base p1 = file_path base p2 → p1 = p2.
Proof.
  intros H1 H2. rewrite !file_path_valid by done.
  intros H%str_app_inv_head. by apply str_app_inv_tail in H.
Qed.

Lemma subcollections_path_inj base p1 p2 :
  valid_path p1 = true → valid_path p2 = true →
  subcollections_path base p1 = subcollections_path base p2 → p1 = p2.
Proof.
  intros H1 H2. rewrite !subcollections_path_valid by done.
  intros H%str_app_inv_head. by apply str_app_inv_tail in H.
Qed.

End StringFacts.

Lemma doc_ok_returns id g cs :
  doc_ok (Document id g (Returns cs)) =
  valid_id id &&
  (bool_decide (NoDup (col_id <$> cs)) &&
   forallb (λ c, valid_id (col_id c) && col_ok c) cs).
Proof.
  reflexivity.
Qed.

Lemma col_ok_eq id ds f :
  col_ok (Collection id ds f) =
  bool_decide (NoDup (doc_id <$> ds)) && forallb doc_ok ds.
Proof.
  reflexivity.
Qed.

(** ** The encoder never fails on a list of names *)

Lemma enc_seq_complete (a b : Json.enc) :
  a.2 = None → b.2 = None → (Json.enc_seq a b).2 = None.
Proof. destruct a as [s [e|]]; [done|]. by intros _ Hb. Qed.

Lemma each_item_complete {A} (item : A → Json.enc) separator first l :
  (∀ x, x ∈ l → (item x).2 = None) →
  (Json.each_item item separator first l).2 = None.
Proof.
  revert first. induction l as [|x l IH]; intros first Hl; [done|].
  cbn [Json.each_item]. apply enc_seq_complete; [by destruct first|].
  apply enc_seq_complete; [apply Hl; by left|].
  apply IH. intros y Hy. apply Hl. by right.
Qed.

Lemma manifest_text_complete names : (manifest_text names).2 = None.
Proof.
  unfold manifest_text, Json.dump. destruct names as [|n names]; [done|].
  assert (∀ x, x ∈ PStr <$> (n :: names) →
            (Json.iterencode (Json.encode_object Json.base_default) 1 x).2
              = None) as Hitems.
  { intros x (s & -> & _)%list_elem_of_fmap. done. }
  revert Hitems. generalize (n :: names). intros l Hitems.
  destruct l as [|n' l]; [done|].
  change (PStr <$> n' :: l) with (PStr n' :: (PStr <$> l)) in *.
  cbn [Json.iterencode].
  repeat (apply enc_seq_complete; [done|]).
  apply enc_seq_complete; [|done].
  by apply each_item_complete.
Qed.

(** ** The shape of a document's events *)

Section Shape.
Variable makedirs_fault : string → option string.
Variable open_fault : string → option string.
Variable base_path : string.

Abbreviation doc_trace := (doc_trace makedirs_fault open_fault base_path).
Abbreviation col_trace := (col_trace makedirs_fault open_fault base_path).
Abbreviation descent := (descent makedirs_fault open_fault base_path).

Lemma doc_trace_shape col_path d :
  let path := child_path col_path (doc_id d) in
  own_only base_path path (doc_trace col_path d) ∨
  ∃ fields text cs,
    doc_get d = Returns (Present fields) ∧
    document_text fields = (text, None) ∧
    doc_collections d = Returns cs ∧ cs ≠ [] ∧
    doc_trace col_path d =
    exported_events base_path path text
      (manifest_text (get_all_subcollections cs)).1
      ++ descent path cs ++ loop_error path cs.
Proof.
  destruct d as [id g cols]. unfold Exporter.doc_trace.
  rewrite process_document_eq. unfold document_body.
  cbn [doc_id doc_get doc_collections].
  destruct g as [[|fields]|msg].
  - left. by repeat split; try left.
  - unfold makedirs, write_json.
    destruct (makedirs_fault _) as [msg|].
    { left. by repeat split; try left. }
    destruct (open_fault (file_path _ _)) as [msg|].
    { left. by repeat split; try left. }
    destruct (document_text fields) as [text [msg|]] eqn:Htext.
    { left. cbn. unfold written. cbn. repeat split; try done. by right. }
    destruct cols as [[|c cs]|msg].
    + left. cbn. unfold written. cbn. repeat split; try done. by right.
    + destruct (open_fault (subcollections_path _ _)) as [msg|] eqn:Hopen.
      { left. cbn. unfold written. cbn.
        repeat split; try done. by right. }
      right. exists fields, text, (c :: cs). repeat split; try done.
      rewrite manifest_text_complete, for_each_collections.
      unfold loop_error. destruct (streams_fail (c :: cs)); cbn;
        by rewrite ?app_nil_r.
    + left. cbn. unfold written. cbn. repeat split; try done. by right.
  - left. by repeat split; try left.
Qed.

End Shape.

(** ** Lists of observations *)

Lemma elem_of_flat_map {A B} (f : A → list B) (l : list A) (y : B) :
  y ∈ flat_map f l ↔ ∃ x, x ∈ l ∧ y ∈ f x.
Proof.
  rewrite list_elem_of_In, in_flat_map.
  split; intros (x & Hx & Hy); exists x; split; by apply list_elem_of_In.
Qed.

Lemma omap_flat_map {A B C} (f : B → option C) (g : A → list B) (l : list A) :
  omap f (flat_map g l) = flat_map (λ x, omap f (g x)) l.
Proof.
  induction l as [|x l IH]; [done|]. cbn [flat_map].
  by rewrite omap_app, IH.
Qed.

Lemma omap_cons_match {A B} (f : A → option B) (x : A) (l : list A) :
  omap f (x :: l) =
  match f x with Some y => y :: omap f l | None => omap f l end.
Proof. reflexivity. Qed.

Lemma fmap_flat_map {A B C} (f : B → C) (g : A → list B) (l : list A) :
  f <$> flat_map g l = flat_map (λ x, f <$> g x) l.
Proof.
  induction l as [|x l IH]; [done|]. cbn [flat_map].
  by rewrite fmap_app, IH.
Qed.

Lemma sublist_flat_map {A B} (f g : A → list B) (l : list A) :
  (∀ x, x ∈ l → sublist (f x) (g x)) →
  sublist (flat_map f l) (flat_map g l).
Proof.
  induction l as [|x l IH]; intros H; [done|]. cbn [flat_map].
  apply sublist_app; [apply H; by left|]. apply IH. intros y Hy. apply H. by right.
Qed.

Lemma flat_map_ext_elem {A B} (f g : A → list B) (l : list A) :
  (∀ x, x ∈ l → f x = g x) → flat_map f l = flat_map g l.
Proof.
  induction l as [|x l IH]; intros H; [done|]. cbn [flat_map].
  rewrite (H x) by by left. rewrite IH; [done|]. intros y Hy. apply H. by right.
Qed.

(** ** Paths below a node *)

Section BelowFacts.
Import PyStr.

Lemma below_refl q id : below q id (child_path q id).
Proof. exists EmptyString. split; [by rewrite str_app_nil_r|by left]. Qed.

Lemma below_child a b c g : below (child_path a b) c g → below a b g.
Proof.
  intros (rest & -> & _). exists ("/" +:+ c +:+ rest).
  split; [|by right]. unfold child_path. by rewrite !str_app_assoc.
Qed.

Lemma below_longer q id g : below q id g → g ≠ q.
Proof.
  intros (rest & -> & _). unfold child_path. rewrite !str_app_assoc.
  by apply str_app_neq_self.
Qed.

Lemma sep_free_prefix_unique id1 id2 rest1 rest2 :
  has_sep id1 = false → has_sep id2 = false →
  rest1 = EmptyString ∨ startswith_sep rest1 = true →
  rest2 = EmptyString ∨ startswith_sep rest2 = true →
  id1 +:+ rest1 = id2 +:+ rest2 → id1 = id2.
Proof.
  revert id2. induction id1 as [|c id1 IH]; intros [|c' id2] H1 H2 Hr1 Hr2 Heq.
  - done.
  - rewrite str_app_nil_l, str_app_cons in Heq. subst rest1. cbn in H2, Hr1.
    apply orb_false_elim in H2 as [Hc _]. destruct Hr1 as [|Hr1]; [done|].
    by rewrite Hr1 in Hc.
  - rewrite str_app_nil_l, str_app_cons in Heq. subst rest2. cbn in H1, Hr2.
    apply orb_false_elim in H1 as [Hc _]. destruct Hr2 as [|Hr2]; [done|].
    by rewrite Hr2 in Hc.
  - rewrite !str_app_cons in Heq. injection Heq as -> Heq.
    cbn in H1, H2. apply orb_false_elim in H1 as [_ H1].
    apply orb_false_elim in H2 as [_ H2]. f_equal. by apply IH.
Qed.

Lemma below_inj q id1 id2 g :
  valid_id id1 = true → valid_id id2 = true →
  below q id1 g → below q id2 g → id1 = id2.
Proof.
  intros [_ H1]%valid_id_spec [_ H2]%valid_id_spec.
  intros (r1 & -> & Hr1) (r2 & Heq & Hr2).
  unfold child_path in Heq. rewrite !str_app_assoc in Heq.
  apply str_app_inv_head, str_app_inv_head in Heq.
  by apply (sep_free_prefix_unique id1 id2 r1 r2).
Qed.

Lemma NoDup_flat_map_below {A} (key : A → string) (f : A → list string)
    (q : string) (l : list A) :
  NoDup (key <$> l) →
  (∀ x, x ∈ l → valid_id (key x) = true) →
  (∀ x, x ∈ l → NoDup (f x)) →
  (∀ x g, x ∈ l → g ∈ f x → below q (key x) g) →
  NoDup (flat_map f l).
Proof.
  induction l as [|x l IH]; intros Hkeys Hvalid Hnodup Hbelow.
  { constructor. }
  rewrite fmap_cons in Hkeys. apply NoDup_cons in Hkeys as [Hx Hkeys].
  cbn [flat_map]. apply NoDup_app. split; [|split].
  - apply Hnodup. by left.
  - intros g Hg (y & Hy & Hgy)%elem_of_flat_map.
    apply Hx. apply list_elem_of_fmap. exists y. split; [|done].
    apply (below_inj q (key x) (key y) g).
    + apply Hvalid. by left.
    + apply Hvalid. by right.
    + apply Hbelow; [by left|done].
    + apply Hbelow; [by right|done].
  - apply IH; [done|..].
    + intros y Hy. apply Hvalid. by right.
    + intros y Hy. apply Hnodup. by right.
    + intros y g Hy. apply Hbelow. by right.
Qed.

End BelowFacts.

(** ** Every path is visited once *)

Section Visits.
Variable makedirs_fault : string → option string.
Variable open_fault : string → option string.
Variable base_path : string.

Abbreviation doc_trace := (doc_trace makedirs_fault open_fault base_path).
Abbreviation col_trace := (col_trace makedirs_fault open_fault base_path).
Abbreviation descent := (descent makedirs_fault open_fault base_path).

Abbreviation doc_visit := (doc_visit makedirs_fault open_fault base_path).
Abbreviation col_visit := (col_visit makedirs_fault open_fault base_path).

Lemma omap_loop_error {B} (f : event → option B) path cs :
  (∀ line, f (Print line) = None) → omap f (loop_error path cs) = [].
Proof.
  intros Hf. unfold loop_error. destruct (streams_fail cs); [|done].
  cbn. by rewrite Hf.
Qed.

Lemma omap_visit_trace {B} (f : event → option B) q ds :
  (∀ p, f (Snapshot p) = None) →
  omap f (flat_map (visit_trace makedirs_fault open_fault base_path q) ds) =
  flat_map (λ d, omap f (doc_trace q d)) ds.
Proof.
  intros Hf. induction ds as [|d ds IH]; [done|].
  cbn [flat_map]. rewrite omap_app, IH. unfold Exporter.visit_trace.
  rewrite omap_cons_match. by rewrite Hf.
Qed.

Lemma reached_sublist cs : reached cs `sublist_of` cs.
Proof.
  induction cs as [|c cs IH]; [done|]. cbn [reached].
  apply sublist_skip. destruct (col_fault c); [apply sublist_nil_l|done].
Qed.

Lemma reached_elem c cs : c ∈ reached cs → c ∈ cs.
Proof. intros Hc. apply (elem_of_sublist _ _ _ Hc), reached_sublist. Qed.

Lemma reached_all cs : streams_fail cs = false → reached cs = cs.
Proof.
  induction cs as [|c cs IH]; [done|]. cbn [streams_fail existsb reached].
  intros [Hc Hcs]%orb_false_iff. rewrite IH by done.
  destruct (col_fault c); [|done]. apply bool_decide_eq_false in Hc.
  by destruct Hc.
Qed.

Lemma gets_col_trace q c :
  gets (col_trace q c) = flat_map (λ d, gets (doc_trace q d)) (col_stream c).
Proof.
  rewrite col_trace_eq. unfold gets.
  rewrite omap_cons_match. cbv beta iota. by rewrite omap_visit_trace.
Qed.

Lemma streams_col_trace q c :
  streams (col_trace q c) =
  q :: flat_map (λ d, streams (doc_trace q d)) (col_stream c).
Proof.
  rewrite col_trace_eq. unfold streams.
  rewrite omap_cons_match. cbv beta iota. by rewrite omap_visit_trace.
Qed.

Lemma written_col_trace k q c :
  written k (col_trace q c) =
  flat_map (λ d, written k (doc_trace q d)) (col_stream c).
Proof.
  rewrite col_trace_eq. unfold written.
  rewrite omap_cons_match. cbv beta iota. by rewrite omap_visit_trace.
Qed.

Lemma gets_exported p text manifest cs :
  gets (exported_events base_path p text manifest
          ++ descent p cs ++ loop_error p cs) =
  p :: flat_map (λ c, gets (col_trace (child_path p (col_id c)) c))
         (reached cs).
Proof.
  unfold gets. rewrite !omap_app, omap_loop_error by done.
  unfold Exporter.descent. by rewrite omap_flat_map, app_nil_r.
Qed.

Lemma streams_exported p text manifest cs :
  streams (exported_events base_path p text manifest
             ++ descent p cs ++ loop_error p cs) =
  flat_map (λ c, streams (col_trace (child_path p (col_id c)) c))
    (reached cs).
Proof.
  unfold streams. rewrite !omap_app, omap_loop_error by done.
  unfold Exporter.descent. by rewrite omap_flat_map, app_nil_r.
Qed.

Lemma written_data_exported p text manifest cs :
  written DataFile
    (exported_events base_path p text manifest
       ++ descent p cs ++ loop_error p cs) =
  file_path base_path p
    :: flat_map (λ c, written DataFile
                        (col_trace (child_path p (col_id c)) c))
         (reached cs).
Proof.
  unfold written. rewrite !omap_app, omap_loop_error by done.
  unfold Exporter.descent. by rewrite omap_flat_map, app_nil_r.
Qed.

Lemma written_manifest_exported p text manifest cs :
  written ManifestFile
    (exported_events base_path p text manifest
       ++ descent p cs ++ loop_error p cs) =
  subcollections_path base_path p
    :: flat_map (λ c, written ManifestFile
                        (col_trace (child_path p (col_id c)) c))
         (reached cs).
Proof.
  unfold written. rewrite !omap_app, omap_loop_error by done.
  unfold Exporter.descent. by rewrite omap_flat_map, app_nil_r.
Qed.

Lemma doc_ok_valid_id d : doc_ok d = true → valid_id (doc_id d) = true.
Proof. destruct d as [id g cs]. cbn [doc_ok doc_id]. by intros [? _]%andb_true_iff. Qed.

Lemma own_only_visit col_path id t :
  valid_path col_path = true → valid_id id = true →
  own_only base_path (child_path col_path id) t →
  visit_inv base_path (below col_path id) (below col_path id) t.
Proof.
  intros Hcol Hid (Hg & Hs & _ & Hm & Hd). unfold visit_inv.
  rewrite Hg, Hs, Hm. split_and!.
  - apply NoDup_singleton.
  - constructor.
  - intros g ->%list_elem_of_singleton.
    split; [apply below_refl|by apply valid_path_child].
  - by intros g ?%elem_of_nil.
  - destruct Hd as [-> | ->]; [apply sublist_nil_l|done].
  - apply sublist_nil_l.
Qed.

Lemma document_visits_raises id g msg : doc_visit (Document id g (Raises msg)).
Proof.
  intros col_path Hcol Hok. apply doc_ok_valid_id in Hok as Hid.
  destruct (doc_trace_shape makedirs_fault open_fault base_path col_path
              (Document id g (Raises msg))) as [Hown|(? & ? & ? & _ & _ & [=] & _)].
  by apply own_only_visit.
Qed.

Lemma document_visits_returns id g cs :
  Forall col_visit cs → doc_visit (Document id g (Returns cs)).
Proof.
  intros IH col_path Hcol Hok. apply doc_ok_valid_id in Hok as Hid.
  cbn [doc_id] in *.
  destruct (doc_trace_shape makedirs_fault open_fault base_path col_path
              (Document id g (Returns cs)))
    as [Hown|(fields & text & cs' & _ & _ & [= <-] & _ & Ht)].
  { by apply own_only_visit. }
  cbn [doc_id] in Ht. rewrite Ht. clear Ht.
  set (p := child_path col_path id).
  assert (valid_path p = true) as Hp by by apply valid_path_child.
  rewrite doc_ok_returns in Hok.
  apply andb_true_iff in Hok as [_ [Hnodup Hall]%andb_true_iff].
  apply bool_decide_eq_true in Hnodup.
  rewrite forallb_forall in Hall.
  assert (NoDup (col_id <$> reached cs)) as Hreached.
  { eapply sublist_NoDup; [apply Hnodup|].
    apply fmap_sublist, reached_sublist. }
  assert (∀ c, c ∈ reached cs →
            valid_id (col_id c) = true ∧
            visit_inv base_path
              (below p (col_id c)) (below p (col_id c))
              (col_trace (child_path p (col_id c)) c)) as Hsub.
  { intros c Hc%reached_elem. rewrite Forall_forall in IH.
    pose proof (Hall c (proj1 (list_elem_of_In _ _) Hc)) as [Hcid Hcok]%andb_true_iff.
    split; [done|].
    destruct (IH c Hc (child_path p (col_id c))
                (valid_path_child _ _ Hp Hcid) Hcok)
      as (N1 & N2 & G & S & D & M).
    unfold visit_inv. split_and!; try done.
    - intros s Hs. destruct (G s Hs) as [(d & _ & Hb) Hv].
      split; [by apply below_child in Hb|done].
    - intros s [->|(d & _ & Hb)]%S; [apply below_refl|by apply below_child in Hb]. }
  unfold visit_inv.
  rewrite gets_exported, streams_exported, written_data_exported,
    written_manifest_exported.
  split_and!.
  - apply NoDup_cons. split.
    + intros (c & Hc & Hg)%elem_of_flat_map.
      destruct (Hsub c Hc) as (_ & _ & _ & G & _).
      destruct (G _ Hg) as [Hb _]. by apply below_longer in Hb.
    + apply (NoDup_flat_map_below col_id _ p); [done|..].
      * intros c Hc. by destruct (Hsub c Hc).
      * intros c Hc. by destruct (Hsub c Hc) as (_ & ? & _).
      * intros c s Hc Hs. destruct (Hsub c Hc) as (_ & _ & _ & G & _).
        by destruct (G s Hs).
  - apply (NoDup_flat_map_below col_id _ p); [done|..].
    + intros c Hc. by destruct (Hsub c Hc).
    + intros c Hc. by destruct (Hsub c Hc) as (_ & _ & ? & _).
    + intros c s Hc Hs. destruct (Hsub c Hc) as (_ & _ & _ & _ & S & _).
      by apply S.
  - intros s [->|(c & Hc & Hg)%elem_of_flat_map]%elem_of_cons.
    + split; [apply below_refl|done].
    + destruct (Hsub c Hc) as (_ & _ & _ & G & _).
      destruct (G _ Hg) as [Hb Hv]. split; [by apply below_child in Hb|done].
  - intros s (c & Hc & Hs)%elem_of_flat_map.
    destruct (Hsub c Hc) as (_ & _ & _ & _ & S & _).
    apply S in Hs. by apply below_child in Hs.
  - rewrite fmap_cons, fmap_flat_map. apply sublist_skip.
    apply sublist_flat_map. intros c Hc.
    by destruct (Hsub c Hc) as (_ & _ & _ & _ & _ & ? & _).
  - rewrite fmap_cons, fmap_flat_map. apply sublist_skip.
    apply sublist_flat_map. intros c Hc.
    by destruct (Hsub c Hc) as (_ & _ & _ & _ & _ & _ & ?).
Qed.

Lemma collection_visits id ds f :
  Forall doc_visit ds → col_visit (Collection id ds f).
Proof.
  intros IH q Hq Hok. rewrite col_ok_eq in Hok.
  apply andb_true_iff in Hok as [Hnodup Hall].
  apply bool_decide_eq_true in Hnodup. rewrite forallb_forall in Hall.
  assert (∀ d, d ∈ ds →
            valid_id (doc_id d) = true ∧
            visit_inv base_path (below q (doc_id d)) (below q (doc_id d))
              (doc_trace q d)) as Hsub.
  { intros d Hd. rewrite Forall_forall in IH.
    pose proof (Hall d (proj1 (list_elem_of_In _ _) Hd)) as Hdok.
    split; [by apply doc_ok_valid_id|]. by apply IH. }
  unfold visit_inv.
  rewrite gets_col_trace, streams_col_trace, !written_col_trace.
  cbn [col_stream]. split_and!.
  - apply (NoDup_flat_map_below doc_id _ q); [done|..].
    + intros d Hd. by destruct (Hsub d Hd).
    + intros d Hd. by destruct (Hsub d Hd) as (_ & ? & _).
    + intros d s Hd Hs. destruct (Hsub d Hd) as (_ & _ & _ & G & _).
      by destruct (G s Hs).
  - apply NoDup_cons. split.
    + intros (d & Hd & Hs)%elem_of_flat_map.
      destruct (Hsub d Hd) as (_ & _ & _ & _ & S & _).
      apply S in Hs. by apply below_longer in Hs.
    + apply (NoDup_flat_map_below doc_id _ q); [done|..].
      * intros d Hd. by destruct (Hsub d Hd).
      * intros d Hd. by destruct (Hsub d Hd) as (_ & _ & ? & _).
      * intros d s Hd Hs. destruct (Hsub d Hd) as (_ & _ & _ & _ & S & _).
        by apply S.
  - intros s (d & Hd & Hg)%elem_of_flat_map.
    destruct (Hsub d Hd) as (_ & _ & _ & G & _). destruct (G _ Hg).
    split; [by exists d|done].
  - intros s [->|(d & Hd & Hs)%elem_of_flat_map]%elem_of_cons; [by left|].
    right. exists d. split; [done|].
    destruct (Hsub d Hd) as (_ & _ & _ & _ & S & _). by apply S.
  - rewrite fmap_flat_map. apply sublist_flat_map. intros d Hd.
    by destruct (Hsub d Hd) as (_ & _ & _ & _ & _ & ? & _).
  - rewrite fmap_flat_map. apply sublist_flat_map. intros d Hd.
    by destruct (Hsub d Hd) as (_ & _ & _ & _ & _ & _ & ?).
Qed.

Lemma collection_visit c : col_visit c.
Proof.
  apply (collection_tree_ind doc_visit col_visit).
  - apply document_visits_raises.
  - apply document_visits_returns.
  - apply collection_visits.
Qed.

(** *** Every document a stream yields is fetched *)

Lemma snapshots_exported p text manifest cs :
  snapshots (exported_events base_path p text manifest
               ++ descent p cs ++ loop_error p cs) =
  flat_map (λ c, snapshots (col_trace (child_path p (col_id c)) c))
    (reached cs).
Proof.
  unfold snapshots. rewrite !omap_app, omap_loop_error by done.
  unfold Exporter.descent. by rewrite omap_flat_map, app_nil_r.
Qed.

Lemma snapshots_col_trace q c :
  snapshots (col_trace q c) =
  flat_map (λ d, child_path q (doc_id d) :: snapshots (doc_trace q d))
    (col_stream c).
Proof.
  rewrite col_trace_eq. unfold snapshots.
  rewrite omap_cons_match. cbv beta iota.
  induction (col_stream c) as [|d ds IH]; [done|].
  cbn [flat_map]. rewrite omap_app, IH. unfold Exporter.visit_trace.
  by rewrite omap_cons_match.
Qed.

Lemma snapshots_are_fetched c q :
  snapshots (col_trace q c) = gets (col_trace q c).
Proof.
  revert q. apply (collection_tree_ind
    (λ d, ∀ col_path,
       gets (doc_trace col_path d) =
       child_path col_path (doc_id d) :: snapshots (doc_trace col_path d))
    (λ c, ∀ q, snapshots (col_trace q c) = gets (col_trace q c))).
  - intros id g msg col_path.
    destruct (doc_trace_shape makedirs_fault open_fault base_path col_path
                (Document id g (Raises msg)))
      as [(Hg & _ & Hs & _)|(? & ? & ? & _ & _ & [=] & _)].
    by rewrite Hg, Hs.
  - intros id g cs IH col_path.
    destruct (doc_trace_shape makedirs_fault open_fault base_path col_path
                (Document id g (Returns cs)))
      as [(Hg & _ & Hs & _)|(fields & text & cs' & _ & _ & [= <-] & _ & Ht)].
    { by rewrite Hg, Hs. }
    rewrite Ht, gets_exported, snapshots_exported. f_equal.
    symmetry. apply flat_map_ext_elem. intros c' Hc%reached_elem.
    rewrite Forall_forall in IH. by apply IH.
  - intros id ds f IH q.
    rewrite snapshots_col_trace, gets_col_trace. cbn [col_stream].
    apply flat_map_ext_elem. intros d Hd.
    rewrite Forall_forall in IH. by rewrite IH.
Qed.

End Visits.

Lemma doc_path_fetched makedirs_fault open_fault base_path col_path d :
  child_path col_path (doc_id d)
    ∈ gets (doc_trace makedirs_fault open_fault base_path col_path d).
Proof.
  destruct (doc_trace_shape makedirs_fault open_fault base_path col_path d)
    as [(Hg & _)|(fields & text & cs & _ & _ & _ & _ & Ht)].
  - rewrite Hg. by left.
  - rewrite Ht, gets_exported. by left.
Qed.

(** C7. In a run over a store whose ids are valid and unique among siblings,
    every data file written is [file_path] of the path of a document fetched,
    which is the output directory, the store path and [.json] one after the
    other; two valid store paths with the same data file are the same path;
    and no data file is named twice. *)
Theorem export_paths_do_not_collide
    (makedirs_fault open_fault : string → option string)
    (base_path q : string) (c : collection) :
  valid_path q = true → col_ok c = true →
  let t := col_trace makedirs_fault open_fault base_path q c in
  (∀ f, f ∈ written DataFile t →
     ∃ p, p ∈ gets t ∧ valid_path p = true ∧
          f = file_path base_path p ∧
          f = with_sep base_path +:+ p +:+ ".json") ∧
  (∀ p1 p2, valid_path p1 = true → valid_path p2 = true →
     file_path base_path p1 = file_path base_path p2 → p1 = p2) ∧
  (∀ p1 p2, p1 ∈ gets t → p2 ∈ gets t →
     file_path base_path p1 = file_path base_path p2 → p1 = p2) ∧
  NoDup (written DataFile t).
Proof.
  intros Hq Hok t.
  destruct (collection_visit makedirs_fault open_fault base_path c q Hq Hok)
    as (N1 & _ & G & _ & D & _).
  fold t in N1, G, D. split_and!.
  - intros f Hf. pose proof (elem_of_sublist _ _ _ Hf D) as Hin.
    clear D. rename Hin into D.
    apply list_elem_of_fmap in D as (p & -> & Hp).
    destruct (G p Hp) as [_ Hv]. exists p. split_and!; try done.
    by apply file_path_valid.
  - apply file_path_inj.
  - intros p1 p2 H1 H2. apply file_path_inj; [by destruct (G p1 H1)|by destruct (G p2 H2)].
  - eapply sublist_NoDup; [|exact D]. apply NoDup_fmap_2_strong; [|done].
    intros p1 p2 H1 H2. apply file_path_inj; [by destruct (G p1 H1)|by destruct (G p2 H2)].
Qed.

Lemma export_paths_do_not_collide_witness :
  NoDup (written DataFile (col_trace no_fault no_fault "out" "users" users_faulty)).
Proof.
  apply (export_paths_do_not_collide no_fault no_fault "out" "users"
           users_faulty); reflexivity.
Defined.

Lemma occurrences_NoDup p l : NoDup l → p ∈ l → occurrences p l = 1.
Proof.
  unfold occurrences. induction 1 as [|x l Hx Hl IH]; [by intros ?%elem_of_nil|].
  intros Hp. rewrite filter_cons. destruct (decide (x = p)) as [->|Hne].
  - cbn. f_equal. clear IH Hp. induction l as [|y l IH]; [done|].
    apply not_elem_of_cons in Hx as [Hy Hx].
    rewrite filter_cons. destruct (decide (y = p)); [done|].
    apply NoDup_cons in Hl as [_ Hl]. by apply IH.
  - apply elem_of_cons in Hp as [->|Hp]; [done|]. by apply IH.
Qed.

Lemma occurrences_reads p t :
  occurrences p (reads t) =
  occurrences p (snapshots t) + occurrences p (gets t).
Proof.
  unfold occurrences, reads, snapshots, gets.
  induction t as [|e t IH]; [done|].
  rewrite !omap_cons_match. destruct e; try done.
  - rewrite !filter_cons. destruct (decide (doc_path = p)); cbn; lia.
  - rewrite !filter_cons. destruct (decide (doc_path = p)); cbn; lia.
Qed.

(** C5, as stated, fails twice. A document is read twice, by the stream
    that yields its snapshot and by [get()]; and with a document [u1] that
    has a subcollection and a sibling document [u1_subcollections], the file
    [out/users/u1_subcollections.json] is written twice in one run, once with
    the sibling's data and once as the manifest of [u1]. *)
Lemma documents_read_twice_and_clash_written_twice :
  col_trace no_fault no_fault "out" "users" users_ann =
    [Stream "users"; Snapshot "users/u1"; Get "users/u1";
     Makedirs "out/users"; Write DataFile "out/users/u1.json" ann_text;
     Print "Saved document users/u1 to out/users/u1.json";
     ListCollections "users/u1"] ∧
  reads (col_trace no_fault no_fault "out" "users" users_ann) =
    ["users/u1"; "users/u1"] ∧
  valid_path "users" = true ∧ col_ok users_clash = true ∧
  all_written (col_trace no_fault no_fault "out" "users" users_clash) =
    ["out/users/u1_subcollections.json"; "out/users/u1.json";
     "out/users/u1_subcollections.json"] ∧
  ¬ NoDup (all_written (col_trace no_fault no_fault "out" "users" users_clash)).
Proof.
  split_and!; try reflexivity.
  assert (all_written (col_trace no_fault no_fault "out" "users" users_clash) =
          ["out/users/u1_subcollections.json"; "out/users/u1.json";
           "out/users/u1_subcollections.json"]) as -> by reflexivity.
  intros H. apply NoDup_cons in H as [H _]. apply H. right. by left.
Qed.

(** C5, amended. The traversal is a depth-first pre-order walk: a collection
    is streamed, then each document the stream yields is processed, in the
    order of the stream; a document either descends into nothing, or is
    fetched, written in full and its manifest written before the first of
    its subcollections is streamed, the subcollections following in the
    order listed. In a store with valid ids, unique among siblings, every
    collection reached is streamed exactly once, every document a stream
    yields is fetched by [get()] exactly once, which makes two reads of it,
    no data file is written twice and no manifest is written twice. *)
Theorem traversal_is_preorder
    (makedirs_fault open_fault : string → option string)
    (base_path q : string) (c : collection) :
  valid_path q = true → col_ok c = true →
  let t := col_trace makedirs_fault open_fault base_path q c in
  t = Stream q
        :: flat_map (λ d, Snapshot (child_path q (doc_id d))
                            :: doc_trace makedirs_fault open_fault base_path
                                 q d)
             (col_stream c) ∧
  (∀ col_path d,
     let path := child_path col_path (doc_id d) in
     own_only base_path path
       (doc_trace makedirs_fault open_fault base_path col_path d) ∨
     ∃ fields text cs rest,
       doc_get d = Returns (Present fields) ∧
       document_text fields = (text, None) ∧
       doc_collections d = Returns cs ∧ cs ≠ [] ∧
       doc_trace makedirs_fault open_fault base_path col_path d =
       [Get path;
        Makedirs (OsPath.dirname (dir_path base_path path));
        Write DataFile (file_path base_path path) text;
        Print (saved_line path (file_path base_path path));
        ListCollections path;
        Write ManifestFile (subcollections_path base_path path)
          (manifest_text (get_all_subcollections cs)).1]
       ++ flat_map (λ c', col_trace makedirs_fault open_fault base_path
                            (child_path path (col_id c')) c') (reached cs)
       ++ rest ∧
       gets rest = [] ∧ streams rest = [] ∧ writes rest = []) ∧
  snapshots t = gets t ∧
  (∀ d, d ∈ col_stream c → child_path q (doc_id d) ∈ gets t) ∧
  (∀ p, p ∈ gets t →
     occurrences p (gets t) = 1 ∧ occurrences p (snapshots t) = 1 ∧
     occurrences p (reads t) = 2) ∧
  (∀ s, s ∈ streams t → occurrences s (streams t) = 1) ∧
  q ∈ streams t ∧
  NoDup (written DataFile t) ∧ NoDup (written ManifestFile t).
Proof.
  intros Hq Hok t.
  destruct (collection_visit makedirs_fault open_fault base_path c q Hq Hok)
    as (N1 & N2 & G & _ & D & M).
  pose proof (snapshots_are_fetched makedirs_fault open_fault base_path c q)
    as Hsnap.
  fold t in N1, N2, G, D, M, Hsnap. split_and!; try done.
  - apply col_trace_eq.
  - intros col_path d path.
    destruct (doc_trace_shape makedirs_fault open_fault base_path col_path d)
      as [Hown|(fields & text & cs & Hg & Htext & Hcs & Hne & Ht)];
      [by left|right].
    exists fields, text, cs,
      (loop_error (child_path col_path (doc_id d)) cs).
    split_and!; try done.
    + apply (omap_loop_error _ _ _ (λ _, eq_refl)).
    + apply (omap_loop_error _ _ _ (λ _, eq_refl)).
    + apply (omap_loop_error _ _ _ (λ _, eq_refl)).
  - intros d Hd. unfold t. rewrite gets_col_trace.
    apply elem_of_flat_map. exists d. split; [done|]. apply doc_path_fetched.
  - intros p Hp.
    assert (occurrences p (gets t) = 1) as H1 by by apply occurrences_NoDup.
    assert (occurrences p (snapshots t) = 1) as H2 by by rewrite Hsnap.
    split_and!; try done. rewrite occurrences_reads. lia.
  - intros s Hs. by apply occurrences_NoDup.
  - unfold t. rewrite streams_col_trace. by left.
  - eapply sublist_NoDup; [|exact D]. apply NoDup_fmap_2_strong; [|done].
    intros p1 p2 H1 H2. apply file_path_inj; [by destruct (G p1 H1)|by destruct (G p2 H2)].
  - eapply sublist_NoDup; [|exact M]. apply NoDup_fmap_2_strong; [|done].
    intros p1 p2 H1 H2.
    apply subcollections_path_inj; [by destruct (G p1 H1)|by destruct (G p2 H2)].
Qed.

Lemma traversal_is_preorder_witness :
  occurrences "users/u5/posts/p1"
    (reads (col_trace no_fault no_fault "out" "users" users_faulty)) = 2 ∧
  NoDup (written ManifestFile
           (col_trace no_fault no_fault "out" "users" users_faulty)).
Proof.
  destruct (traversal_is_preorder no_fault no_fault "out" "users" users_faulty
              eq_refl eq_refl) as (_ & _ & _ & _ & H1 & _ & _ & _ & H2).
  split; [|done]. apply H1. vm_compute.
  do 5 apply list_elem_of_further. apply list_elem_of_here.
Defined.

(** ** Files *)




(** ** The manifest comes after the document *)

Lemma app_eq_middle {A} (l1 l2 k1 k2 : list A) (x : A) :
  l1 ++ l2 = k1 ++ x :: k2 →
  (∃ m, l1 = k1 ++ x :: m ∧ k2 = m ++ l2) ∨
  (∃ m, k1 = l1 ++ m ∧ l2 = m ++ x :: k2).
Proof.
  revert k1. induction l1 as [|a l1 IH]; intros k1 H.
  - right. by exists k1.
  - destruct k1 as [|b k1].
    + injection H as -> <-. left. by exists l1.
    + injection H as -> H. destruct (IH _ H) as [(m & -> & ->)|(m & -> & ->)].
      * left. by exists m.
      * right. by exists m.
Qed.

Section ManifestOrder.
Variable makedirs_fault : string → option string.
Variable open_fault : string → option string.
Variable base_path : string.

Abbreviation doc_trace := (doc_trace makedirs_fault open_fault base_path).
Abbreviation col_trace := (col_trace makedirs_fault open_fault base_path).







End ManifestOrder.




(** ** Manifests *)

Lemma doc_trace_exported
    (makedirs_fault open_fault : string → option string)
    (base_path col_path : string) (d : document)
    (fields : list (string * pyval)) (text : string) (cs : list collection) :
  let path := child_path col_path (doc_id d) in
  doc_get d = Returns (Present fields) →
  makedirs_fault (OsPath.dirname (dir_path base_path path)) = None →
  open_fault (file_path base_path path) = None →
  document_text fields = (text, None) →
  doc_collections d = Returns cs →
  (cs ≠ [] → open_fault (subcollections_path base_path path) = None) →
  doc_trace makedirs_fault open_fault base_path col_path d =
  [Get path;
   Makedirs (OsPath.dirname (dir_path base_path path));
   Write DataFile (file_path base_path path) text;
   Print (saved_line path (file_path base_path path));
   ListCollections path]
  ++ match cs with
     | [] => []
     | _ :: _ =>
         Write ManifestFile (subcollections_path base_path path)
           (manifest_text (col_id <$> cs)).1
         :: descent makedirs_fault open_fault base_path path cs
         ++ loop_error path cs
     end.
Proof.
  intros path Hget Hmk Hop Htext Hcols Hopm.
  unfold doc_trace. rewrite process_document_eq.
  unfold document_body, makedirs, write_json. fold path.
  rewrite Hget, Hmk, Hop, Htext, Hcols.
  destruct cs as [|c cs]; [done|].
  rewrite Hopm by done. unfold get_all_subcollections.
  rewrite manifest_text_complete, for_each_collections.
  unfold loop_error. destruct (streams_fail (c :: cs)); cbn;
    by rewrite ?app_nil_r.
Qed.

(** C4, as stated, fails: a document with a bytes field and a subcollection
    is visited, its data file is opened, the encoder raises, and neither a
    manifest is written nor the subcollection streamed. *)
Lemma blob_document_has_no_manifest :
  let d := blob_document "u1" [posts_empty] in
  let t := doc_trace no_fault no_fault "out" "users" d in
  doc_collections d = Returns [posts_empty] ∧
  gets t = ["users/u1"] ∧
  all_written t = ["out/users/u1.json"] ∧
  written ManifestFile t = [] ∧
  streams t = [].
Proof. by split_and!. Qed.

(** C4, amended. For a document whose data file has been written in full and
    whose subcollections have been listed, a manifest is written next to the
    data file if and only if the list is not empty, provided the manifest can
    be opened; its text is the JSON list of the subcollection names, and the
    subcollections are processed after it, in the order listed: each of them
    when none of their streams fails, and otherwise those up to the first
    whose stream fails, whose exception ends the document. *)
Theorem manifest_iff_subcollections
    (makedirs_fault open_fault : string → option string)
    (base_path col_path : string) (d : document)
    (fields : list (string * pyval)) (text : string) (cs : list collection) :
  let path := child_path col_path (doc_id d) in
  let t := doc_trace makedirs_fault open_fault base_path col_path d in
  let sub c := col_trace makedirs_fault open_fault base_path
                 (child_path path (col_id c)) c in
  doc_get d = Returns (Present fields) →
  makedirs_fault (OsPath.dirname (dir_path base_path path)) = None →
  open_fault (file_path base_path path) = None →
  document_text fields = (text, None) →
  doc_collections d = Returns cs →
  open_fault (subcollections_path base_path path) = None →
  t = [Get path;
       Makedirs (OsPath.dirname (dir_path base_path path));
       Write DataFile (file_path base_path path) text;
       Print (saved_line path (file_path base_path path));
       ListCollections path]
      ++ match cs with
         | [] => []
         | _ :: _ =>
             Write ManifestFile (subcollections_path base_path path)
               (Json.dump Json.base_default
                  (PList (PStr <$> (col_id <$> cs)))).1
             :: flat_map sub (reached cs)
             ++ (if streams_fail cs
                 then [Print ("Error processing document " +:+ path +:+
                        ": 'CollectionReference' object has no attribute 'path'")]
                 else [])
         end ∧
  (Json.dump Json.base_default (PList (PStr <$> (col_id <$> cs)))).2 = None ∧
  (subcollections_path base_path path ∈ written ManifestFile t ↔ cs ≠ []) ∧
  (streams_fail cs = false → reached cs = cs) ∧
  streams t = flat_map (λ c, streams (sub c)) (reached cs).
Proof.
  intros path t sub Hget Hmk Hop Htext Hcols Hopm.
  pose proof (doc_trace_exported makedirs_fault open_fault base_path col_path
                d fields text cs Hget Hmk Hop Htext Hcols (λ _, Hopm)) as Ht.
  fold path t in Ht.
  split_and!; [done|apply manifest_text_complete| |apply reached_all|].
  - rewrite Ht. destruct cs as [|c cs].
    + split; [|done]. unfold written. cbn. by intros ?%elem_of_nil.
    + split; [done|]. intros _. unfold written.
      rewrite omap_app, (omap_cons_match _ (Write _ _ _)). cbv beta iota.
      rewrite decide_True by done. apply elem_of_app. right. by left.
  - rewrite Ht. destruct cs as [|c cs]; [done|]. unfold streams.
    rewrite omap_app, (omap_cons_match _ (Write _ _ _)). cbv beta iota.
    rewrite omap_app, omap_loop_error by done.
    unfold descent. by rewrite omap_flat_map, app_nil_r.
Qed.

Lemma manifest_iff_subcollections_witness :
  doc_trace no_fault no_fault "out" "users"
    (Document "u1" (Returns (Present []))
       (Returns [posts_empty; Collection "tags" [] None])) =
  [Get "users/u1"; Makedirs "out/users";
   Write DataFile "out/users/u1.json" "{}";
   Print "Saved document users/u1 to out/users/u1.json";
   ListCollections "users/u1";
   Write ManifestFile "out/users/u1_subcollections.json"
     ("[" +:+ line_feed "  " +:+ quoted "posts" +:+ ","
          +:+ line_feed "  " +:+ quoted "tags" +:+ line_feed "]");
   Stream "users/u1/posts"; Stream "users/u1/tags"].
Proof.
  destruct (manifest_iff_subcollections no_fault no_fault "out" "users"
              (Document "u1" (Returns (Present []))
                 (Returns [posts_empty; Collection "tags" [] None]))
              [] "{}" [posts_empty; Collection "tags" [] None]
              eq_refl eq_refl eq_refl eq_refl eq_refl
              eq_refl) as (H & _).
  apply H.
Defined.

(** ** What the files hold *)

Lemma writes_cons_match e t :
  writes (e :: t) =
  match e with
  | Write k f text => (k, f, text) :: writes t
  | _ => writes t
  end.
Proof. by destruct e. Qed.

Lemma all_written_writes t : all_written t = (λ w, w.1.2) <$> writes t.
Proof.
  induction t as [|e t IH]; [done|]. rewrite writes_cons_match.
  destruct e; try done. rewrite fmap_cons. cbn [fst snd]. by rewrite <- IH.
Qed.

Lemma files_after_lookup t (fs : gmap string string) file :
  files_after t fs !! file =
  match last_write file (writes t) with
  | Some text => Some text
  | None => fs !! file
  end.
Proof.
  revert fs. induction t as [|e t IH]; intros fs; [done|].
  cbn [files_after fold_left]. fold (files_after t (apply_event fs e)).
  rewrite IH, writes_cons_match.
  destruct e; try done. cbn [last_write apply_event].
  destruct (last_write file (writes t)); [done|].
  destruct (decide (file0 = file)) as [->|Hne].
  - by rewrite lookup_insert_eq.
  - by rewrite lookup_insert_ne.
Qed.

Lemma last_write_absent file ws :
  file ∉ (λ w, w.1.2) <$> ws → last_write file ws = None.
Proof.
  induction ws as [|[[k f] text] ws IH]; [done|].
  rewrite fmap_cons, not_elem_of_cons. cbn [fst snd last_write].
  intros [Hne Hin]. rewrite IH by done. by rewrite decide_False.
Qed.

Lemma last_write_unique k file text ws :
  NoDup ((λ w, w.1.2) <$> ws) → (k, file, text) ∈ ws →
  last_write file ws = Some text.
Proof.
  induction ws as [|[[k' f] text'] ws IH]; [by intros _ ?%elem_of_nil|].
  rewrite fmap_cons, NoDup_cons. cbn [fst snd last_write].
  intros [Hf Hnodup] [[= -> -> ->]|Hin]%elem_of_cons.
  - rewrite last_write_absent by done. by rewrite decide_True.
  - by rewrite IH.
Qed.

Lemma files_after_idempotent t (fs : gmap string string) :
  files_after t (files_after t fs) = files_after t fs.
Proof.
  apply map_eq. intros file. rewrite !files_after_lookup.
  by destruct (last_write file (writes t)).
Qed.

Lemma files_after_same_writes t1 t2 (fs : gmap string string) :
  writes t1 = writes t2 → files_after t1 fs = files_after t2 fs.
Proof.
  intros Hw. apply map_eq. intros file. by rewrite !files_after_lookup, Hw.
Qed.

Lemma dom_files_after t (fs : gmap string string) :
  dom (files_after t fs) = dom fs ∪ list_to_set (all_written t).
Proof.
  revert fs. induction t as [|e t IH]; intros fs.
  { cbn. set_solver. }
  cbn [files_after fold_left]. fold (files_after t (apply_event fs e)).
  rewrite IH. destruct e; try done. cbn [apply_event].
  rewrite dom_insert_L. unfold all_written. rewrite omap_cons_match.
  cbn. set_solver.
Qed.

Lemma size_files_after t :
  NoDup (all_written t) →
  size (files_after t (∅ : gmap string string)) = length (all_written t).
Proof.
  intros Hnodup. rewrite <- size_dom, dom_files_after, dom_empty_L.
  rewrite (left_id_L ∅ (∪)). by apply size_list_to_set.
Qed.

(** ** A collection of documents without subcollections *)

Lemma flat_map_singleton {A B} (f : A → B) (g : A → list B) (l : list A) :
  (∀ x, x ∈ l → g x = [f x]) → flat_map g l = f <$> l.
Proof.
  induction l as [|x l IH]; intros H; [done|]. cbn [flat_map].
  rewrite (H x) by by left. rewrite IH; [done|].
  intros y Hy. apply H. by right.
Qed.

Lemma writes_col_trace makedirs_fault open_fault base_path q c :
  writes (col_trace makedirs_fault open_fault base_path q c) =
  flat_map (λ d, writes (doc_trace makedirs_fault open_fault base_path q d))
    (col_stream c).
Proof.
  rewrite col_trace_eq. unfold writes.
  rewrite omap_cons_match. cbv beta iota. by rewrite omap_visit_trace.
Qed.

Lemma leaf_doc_trace makedirs_fault open_fault base_path col_path d :
  let path := child_path col_path (doc_id d) in
  exportable_leaf d = true →
  makedirs_fault (OsPath.dirname (dir_path base_path path)) = None →
  open_fault (file_path base_path path) = None →
  (document_text (doc_fields d)).2 = None ∧
  doc_trace makedirs_fault open_fault base_path col_path d =
  [Get path;
   Makedirs (OsPath.dirname (dir_path base_path path));
   Write DataFile (file_path base_path path) (document_text (doc_fields d)).1;
   Print (saved_line path (file_path base_path path));
   ListCollections path].
Proof.
  intros path Hleaf Hmk Hop. unfold exportable_leaf, doc_fields in *.
  destruct (doc_get d) as [[|fields]|] eqn:Hget; try done.
  destruct (doc_collections d) as [[|]|] eqn:Hcols; try done.
  apply bool_decide_eq_true in Hleaf. split; [done|].
  destruct (document_text fields) as [text e] eqn:Htext.
  cbn in Hleaf. subst e.
  rewrite (doc_trace_exported makedirs_fault open_fault base_path col_path d
             fields text [] Hget Hmk Hop Htext Hcols) by done.
  by rewrite app_nil_r.
Qed.

Lemma child_path_file_valid base_path q id :
  valid_path q = true → valid_id id = true →
  file_path base_path (child_path q id) =
  with_sep base_path +:+ q +:+ "/" +:+ id +:+ ".json".
Proof.
  intros Hq Hid. rewrite file_path_valid by by apply valid_path_child.
  unfold child_path. by rewrite !str_app_assoc.
Qed.

(** C1, as stated, fails: a collection of one document, with a bytes field
    and no subcollection, leaves a file that ends where the encoder raised,
    not the field mapping serialized as JSON. *)
Lemma blob_collection_file_is_truncated :
  let t := col_trace no_fault no_fault "out" "users" users_blob in
  col_stream users_blob = [blob_document "u1" []] ∧
  doc_collections (blob_document "u1" []) = Returns [] ∧
  files_after t ∅ !! "out/users/u1.json" =
    Some ("{" +:+ Json.newline_indent 1 +:+ Json.encoder "blob" +:+ ": ") ∧
  ¬ ∃ text, document_text (doc_fields (blob_document "u1" [])) = (text, None).
Proof.
  split_and!; try reflexivity.
  intros [text H]. vm_compute in H. discriminate H.
Qed.

(** C1, amended. For a collection whose documents exist, hold only values the
    encoder accepts and have no subcollections, and whose directories and
    files can be made and opened, the run writes exactly one file per
    document of the stream, in order, at [file_path] of the document's path,
    holding the document's fields serialized in full, and writes no manifest.
    With valid ids, unique among siblings, that path is
    [<output>/<collection>/<docId>.json], the files left in an empty output
    directory are as many as the documents, and each holds its document's
    text. *)
Theorem leaf_collection_export
    (makedirs_fault open_fault : string → option string)
    (base_path q : string) (c : collection) :
  (∀ d, d ∈ col_stream c →
     exportable_leaf d = true ∧
     makedirs_fault
       (OsPath.dirname (dir_path base_path (child_path q (doc_id d)))) = None ∧
     open_fault (file_path base_path (child_path q (doc_id d))) = None) →
  let t := col_trace makedirs_fault open_fault base_path q c in
  let text_of d := (document_text (doc_fields d)).1 in
  writes t =
    (λ d, (DataFile, file_path base_path (child_path q (doc_id d)), text_of d))
      <$> col_stream c ∧
  length (all_written t) = length (col_stream c) ∧
  written ManifestFile t = [] ∧
  (∀ d, d ∈ col_stream c →
     document_text (doc_fields d) = (text_of d, None)) ∧
  (valid_path q = true → col_ok c = true →
     (∀ d, d ∈ col_stream c →
        file_path base_path (child_path q (doc_id d)) =
        with_sep base_path +:+ q +:+ "/" +:+ doc_id d +:+ ".json") ∧
     size (files_after t ∅) = length (col_stream c) ∧
     (∀ d, d ∈ col_stream c →
        files_after t ∅ !! file_path base_path (child_path q (doc_id d)) =
        Some (text_of d))).
Proof.
  intros Hdocs t text_of.
  assert (writes t =
          (λ d, (DataFile, file_path base_path (child_path q (doc_id d)),
                 text_of d)) <$> col_stream c) as Hw.
  { unfold t. rewrite writes_col_trace. apply flat_map_singleton.
    intros d Hd. destruct (Hdocs d Hd) as (Hleaf & Hmk & Hop).
    destruct (leaf_doc_trace makedirs_fault open_fault base_path q d
                Hleaf Hmk Hop) as [_ ->]. done. }
  assert (all_written t =
          (λ d, file_path base_path (child_path q (doc_id d))) <$> col_stream c)
    as Ha.
  { rewrite all_written_writes, Hw, <- list_fmap_compose. done. }
  split_and!.
  - done.
  - by rewrite Ha, length_fmap.
  - unfold t. rewrite written_col_trace.
    rewrite (flat_map_ext_elem _ (λ _, [])).
    + generalize (col_stream c). intros l.
      induction l as [|d ds IH]; [done|]. exact IH.
    + intros d Hd. destruct (Hdocs d Hd) as (Hleaf & Hmk & Hop).
      destruct (leaf_doc_trace makedirs_fault open_fault base_path q d
                  Hleaf Hmk Hop) as [_ ->]. done.
  - intros d Hd. destruct (Hdocs d Hd) as (Hleaf & Hmk & Hop).
    destruct (leaf_doc_trace makedirs_fault open_fault base_path q d
                Hleaf Hmk Hop) as [Hc _].
    unfold text_of. by rewrite <- Hc, <- surjective_pairing.
  - intros Hq Hok.
    assert (∀ d, d ∈ col_stream c → valid_id (doc_id d) = true) as Hids.
    { intros d Hd. apply doc_ok_valid_id. destruct c as [id ds f].
      rewrite col_ok_eq in Hok. apply andb_true_iff in Hok as [_ Hall].
      rewrite forallb_forall in Hall. apply Hall. by apply list_elem_of_In. }
    assert (NoDup (all_written t)) as Hnodup.
    { rewrite Ha, (list_fmap_compose doc_id
                     (λ id, file_path base_path (child_path q id))).
      apply NoDup_fmap_2_strong.
      - intros id1 id2 (d1 & -> & H1)%list_elem_of_fmap
          (d2 & -> & H2)%list_elem_of_fmap Heq.
        apply file_path_inj in Heq; [|by apply valid_path_child; auto..].
        unfold child_path in Heq. by apply str_app_inv_head, str_app_inv_head in Heq.
      - destruct c as [id ds f]. rewrite col_ok_eq in Hok.
        apply andb_true_iff in Hok as [Hn _]. by apply bool_decide_eq_true in Hn. }
    split_and!.
    + intros d Hd. apply child_path_file_valid; auto.
    + rewrite size_files_after by done. by rewrite Ha, length_fmap.
    + intros d Hd. rewrite files_after_lookup, lookup_empty.
      rewrite (last_write_unique DataFile _ (text_of d)); [done|..].
      * by rewrite <- all_written_writes.
      * rewrite Hw. apply list_elem_of_fmap. by exists d.
Qed.

Lemma leaf_collection_export_witness :
  files_after (col_trace no_fault no_fault "output" "users" users_ann) ∅
    !! "output/users/u1.json" =
  Some ("{" +:+ Json.newline_indent 1 +:+ Json.encoder "name" +:+ ": "
            +:+ Json.encoder "Ann" +:+ Json.newline_indent 0 +:+ "}") ∧
  size (files_after (col_trace no_fault no_fault "output" "users" users_ann) ∅)
    = 1.
Proof.
  assert (∀ d, d ∈ col_stream users_ann →
            exportable_leaf d = true ∧
            no_fault (OsPath.dirname
                        (dir_path "output" (child_path "users" (doc_id d))))
              = None ∧
            no_fault (file_path "output" (child_path "users" (doc_id d)))
              = None) as Hdocs.
  { intros d ->%list_elem_of_singleton. by split_and!. }
  destruct (leaf_collection_export no_fault no_fault "output" "users"
              users_ann Hdocs) as (_ & _ & _ & _ & H).
  destruct (H eq_refl eq_refl) as (_ & Hsize & Hfile).
  split; [|exact Hsize].
  apply (Hfile (Document "u1" (Returns (Present [("name", PStr "Ann")]))
                  (Returns []))).
  by left.
Defined.

(** ** Running the export again *)

Lemma last_write_present file ws :
  file ∈ (λ w, w.1.2) <$> ws → is_Some (last_write file ws).
Proof.
  induction ws as [|[[k f] text] ws IH]; [by intros ?%elem_of_nil|].
  rewrite fmap_cons. cbn [fst snd last_write].
  destruct (decide (f = file)) as [->|Hne].
  - intros _. by destruct (last_write file ws).
  - intros [|Hin]%elem_of_cons; [done|].
    destruct (IH Hin) as [text' ->]. by eexists.
Qed.

Lemma retrieve_eq makedirs_fault open_fault exists_before root out :
  exists_before out = true ∨ makedirs_fault out = None →
  retrieve_collection_with_subcollections makedirs_fault open_fault
    exists_before root out =
  if Nat.even (length (PyStr.split (col_id root)))
  then (setup_events exists_before out, Raises collection_path_error)
  else match col_fault root with
       | Some _ =>
           (setup_events exists_before out
              ++ col_trace makedirs_fault open_fault out (col_id root) root,
            Raises attribute_error_path)
       | None =>
           (setup_events exists_before out
              ++ col_trace makedirs_fault open_fault out (col_id root) root
              ++ [Print (retrieved_line (col_id root))],
            Returns tt)
       end.
Proof.
  intros Hsetup.
  unfold retrieve_collection_with_subcollections, db_collection, setup_events.
  rewrite process_collection_trace, col_trace_eq.
  unfold collection_result, makedirs, retrieved_line.
  destruct (Nat.even _), (col_fault root), (exists_before out); cbn;
    try done; destruct Hsetup as [|Hm]; try done; rewrite Hm; cbn;
    by rewrite ?app_nil_r.
Qed.

Lemma retrieve_writes makedirs_fault open_fault exists_before root out :
  exists_before out = true ∨ makedirs_fault out = None →
  writes (retrieve_collection_with_subcollections makedirs_fault open_fault
            exists_before root out).1 =
  if Nat.even (length (PyStr.split (col_id root))) then []
  else writes (col_trace makedirs_fault open_fault out (col_id root) root).
Proof.
  intros Hsetup. rewrite retrieve_eq by done.
  assert (writes (setup_events exists_before out) = []) as Hs.
  { unfold setup_events. by destruct (exists_before out). }
  unfold writes in *.
  destruct (Nat.even _), (col_fault root); cbn [fst];
    rewrite ?omap_app, ?Hs; cbn; by rewrite ?app_nil_r.
Qed.

Section TwoRuns.
Variable makedirs_fault : string → option string.
Variable open_fault : string → option string.
Variable base_path : string.

Abbreviation forget := (forget_str_val written_as_str).

Lemma default_forget o :
  FirestoreEncoder.default (forget_str_obj written_as_str o) =
  FirestoreEncoder.default o.
Proof.
  unfold forget_str_obj. destruct (written_as_str o) eqn:Hw; [done|].
  revert Hw.
  unfold written_as_str, timestamp_like, store_specific,
    FirestoreEncoder.default. cbn.
  destruct (has_timestamp o), (is_datetime o), (path_attr o); cbn; try done.
  by intros ->.
Qed.

Lemma each_item_map {A} (f : A → A) (item : A → Json.enc) separator first l :
  Forall (λ x, item (f x) = item x) l →
  Json.each_item item separator first (map f l) =
  Json.each_item item separator first l.
Proof.
  intros Hl. revert first.
  induction Hl as [|x l Hx Hl IH]; intros first; [done|].
  cbn [map Json.each_item]. by rewrite Hx, IH.
Qed.

Lemma iterencode_forget v level :
  Json.iterencode (Json.encode_object FirestoreEncoder.default) level (forget v) =
  Json.iterencode (Json.encode_object FirestoreEncoder.default) level v.
Proof.
  revert level. induction v as [| | | | |xs IH|items IH|o] using pyval_tree_ind;
    intros level; try done.
  - cbn [forget_str_val]. destruct xs as [|x xs]; [done|].
    change (map forget (x :: xs)) with (forget x :: map forget xs).
    cbn [Json.iterencode].
    change (forget x :: map forget xs) with (map forget (x :: xs)).
    rewrite (each_item_map forget); [done|].
    eapply Forall_impl; [exact IH|]. intros y Hy. apply Hy.
  - cbn [forget_str_val]. destruct items as [|[k x] items]; [done|].
    set (f := λ '(k, x), (k, forget x) : string * pyval).
    change (map f ((k, x) :: items)) with (f (k, x) :: map f items).
    cbn [Json.iterencode].
    change (f (k, x) :: map f items) with (map f ((k, x) :: items)).
    rewrite (each_item_map f); [done|].
    eapply Forall_impl; [exact IH|]. intros [k' y] Hy. cbn in *.
    by rewrite Hy.
  - cbn [forget_str_val Json.iterencode]. unfold Json.encode_object.
    by rewrite default_forget.
Qed.

Lemma document_text_forget fields :
  document_text (map (λ '(k, x), (k, forget x)) fields) = document_text fields.
Proof. apply (iterencode_forget (PDict fields) 0). Qed.

Lemma for_each_map {A} (f : A → A) (g : A → io unit) l :
  Forall (λ x, g (f x) = g x) l → for_each g (map f l) = for_each g l.
Proof.
  induction 1 as [|x l Hx Hl IH]; [done|].
  cbn [map for_each]. by rewrite Hx, IH.
Qed.

(** The text of [str()] matters only where [default] writes it. *)
Lemma process_collection_forget c q :
  process_collection makedirs_fault open_fault base_path q
    (forget_str_col written_as_str c) =
  process_collection makedirs_fault open_fault base_path q c.
Proof.
  revert q. apply (collection_tree_ind
    (λ d, ∀ col_path,
       process_document makedirs_fault open_fault base_path col_path
         (forget_str_doc written_as_str d) =
       process_document makedirs_fault open_fault base_path col_path d)
    (λ c, ∀ q,
       process_collection makedirs_fault open_fault base_path q
         (forget_str_col written_as_str c) =
       process_collection makedirs_fault open_fault base_path q c)).
  - intros id g msg col_path. rewrite !process_document_eq.
    unfold document_body. cbn [forget_str_doc doc_id doc_get doc_collections].
    destruct g as [[|fields]|msg']; try done.
    cbn [forget_str_get]. by rewrite document_text_forget.
  - intros id g cs IH col_path. rewrite !process_document_eq.
    unfold document_body. cbn [forget_str_doc doc_id doc_get doc_collections].
    assert (get_all_subcollections (map (forget_str_col written_as_str) cs)
            = get_all_subcollections cs) as Hnames.
    { unfold get_all_subcollections. clear IH.
      induction cs as [|[] cs IHcs]; [done|]. cbn. by f_equal. }
    assert (for_each
              (λ c', process_collection makedirs_fault open_fault base_path
                       (child_path (child_path col_path id) (col_id c')) c')
              (map (forget_str_col written_as_str) cs) =
            for_each
              (λ c', process_collection makedirs_fault open_fault base_path
                       (child_path (child_path col_path id) (col_id c')) c')
              cs) as Hloop.
    { apply for_each_map. eapply Forall_impl; [exact IH|].
      intros [cid ds f] Hc. cbn [forget_str_col col_id] in *. apply Hc. }
    destruct g as [[|fields]|msg']; try done.
    cbn [forget_str_get]. rewrite document_text_forget.
    destruct cs as [|c' cs]; [done|].
    change (map (forget_str_col written_as_str) (c' :: cs)) with
      (forget_str_col written_as_str c'
         :: map (forget_str_col written_as_str) cs) in *.
    cbv beta iota. 
    change (forget_str_col written_as_str c'
              :: map (forget_str_col written_as_str) cs) with
      (map (forget_str_col written_as_str) (c' :: cs)) in *.
    by rewrite Hnames, Hloop.
  - intros id ds f IH q. rewrite !process_collection_eq.
    unfold collection_body. cbn [forget_str_col col_stream col_fault].
    rewrite (for_each_map (forget_str_doc written_as_str)); [done|].
    eapply Forall_impl; [exact IH|].
    intros [did g cs] Hd. unfold visit. cbn [forget_str_doc doc_id] in *.
    by rewrite Hd.
Qed.

Lemma forget_str_obj_all keep o :
  forget_str_obj (λ _, false) (forget_str_obj keep o) =
  forget_str_obj (λ _, false) o.
Proof. unfold forget_str_obj. by destruct (keep o). Qed.

Lemma forget_str_val_all keep v :
  forget_str_val (λ _, false) (forget_str_val keep v) =
  forget_str_val (λ _, false) v.
Proof.
  induction v as [| | | | |xs IH|items IH|o] using pyval_tree_ind; try done.
  - cbn [forget_str_val]. f_equal. rewrite map_map.
    induction IH as [|x xs Hx _ IH]; [done|]. cbn [map]. by rewrite Hx, IH.
  - cbn [forget_str_val]. f_equal. rewrite map_map.
    induction IH as [|[k x] items Hx _ IH]; [done|]. cbn [map snd] in *.
    by rewrite Hx, IH.
  - cbn [forget_str_val]. by rewrite forget_str_obj_all.
Qed.

Lemma forget_str_col_all keep c :
  forget_str_col (λ _, false) (forget_str_col keep c) =
  forget_str_col (λ _, false) c.
Proof.
  apply (collection_tree_ind
    (λ d, forget_str_doc (λ _, false) (forget_str_doc keep d) =
          forget_str_doc (λ _, false) d)
    (λ c, forget_str_col (λ _, false) (forget_str_col keep c) =
          forget_str_col (λ _, false) c)).
  - intros id g msg. cbn [forget_str_doc]. f_equal.
    destruct g as [[|fields]|]; try done. cbn [forget_str_get].
    do 2 f_equal. rewrite map_map.
    induction fields as [|[k x] fields IH]; [done|]. cbn [map].
    by rewrite forget_str_val_all, IH.
  - intros id g cs IH. cbn [forget_str_doc]. f_equal.
    + destruct g as [[|fields]|]; try done. cbn [forget_str_get].
      do 2 f_equal. rewrite map_map. clear IH.
      induction fields as [|[k x] fields IH]; [done|]. cbn [map].
      by rewrite forget_str_val_all, IH.
    + f_equal. rewrite map_map.
      induction IH as [|x xs Hx _ IH]; [done|]. cbn [map]. by rewrite Hx, IH.
  - intros id ds f IH. cbn [forget_str_col]. f_equal. rewrite map_map.
    induction IH as [|x xs Hx _ IH]; [done|]. cbn [map]. by rewrite Hx, IH.
Qed.

End TwoRuns.

(** C8, as stated, fails: a document holds a [GeoPoint], which [default]
    answers with [str()]; the text names the address of the object, and a
    second run that finds the same store and builds the object at another
    address writes other bytes. *)
Lemma geo_point_text_differs_between_runs :
  let first := retrieve_collection_with_subcollections no_fault no_fault
                 nothing_exists (users_at (geo_point_at "0x7f3b2c1d4e50"))
                 "out" in
  let again := retrieve_collection_with_subcollections no_fault no_fault
                 everything_exists (users_at (geo_point_at "0x7fa1d80c2b90"))
                 "out" in
  same_store (users_at (geo_point_at "0x7f3b2c1d4e50"))
             (users_at (geo_point_at "0x7fa1d80c2b90")) ∧
  first.2 = Returns tt ∧ again.2 = Returns tt ∧
  files_after first.1 ∅ !! "out/users/u1.json" =
    Some ("{" +:+ line_feed "  " +:+ quoted "at" +:+ ": " +:+ quoted
            "<google.cloud.firestore_v1._helpers.GeoPoint object at 0x7f3b2c1d4e50>"
            +:+ line_feed "}") ∧
  files_after again.1 (files_after first.1 ∅) !! "out/users/u1.json" =
    Some ("{" +:+ line_feed "  " +:+ quoted "at" +:+ ": " +:+ quoted
            "<google.cloud.firestore_v1._helpers.GeoPoint object at 0x7fa1d80c2b90>"
            +:+ line_feed "}") ∧
  files_after first.1 ∅ !! "out/users/u1.json" ≠
  files_after again.1 (files_after first.1 ∅) !! "out/users/u1.json".
Proof.
  assert (∀ (fs : gmap string string) a,
            files_after (retrieve_collection_with_subcollections no_fault
                           no_fault a (users_at (geo_point_at "0x7f3b2c1d4e50"))
                           "out").1 fs !! "out/users/u1.json" =
            Some ("{" +:+ line_feed "  " +:+ quoted "at" +:+ ": " +:+ quoted
              "<google.cloud.firestore_v1._helpers.GeoPoint object at 0x7f3b2c1d4e50>"
              +:+ line_feed "}")) as H1.
  { intros fs a. rewrite files_after_lookup.
    rewrite retrieve_writes by by right. reflexivity. }
  assert (∀ (fs : gmap string string) a,
            files_after (retrieve_collection_with_subcollections no_fault
                           no_fault a (users_at (geo_point_at "0x7fa1d80c2b90"))
                           "out").1 fs !! "out/users/u1.json" =
            Some ("{" +:+ line_feed "  " +:+ quoted "at" +:+ ": " +:+ quoted
              "<google.cloud.firestore_v1._helpers.GeoPoint object at 0x7fa1d80c2b90>"
              +:+ line_feed "}")) as H2.
  { intros fs a. rewrite files_after_lookup.
    rewrite retrieve_writes by by right. reflexivity. }
  intros first again. unfold first, again.
  split_and!; try reflexivity; try apply H1; try apply H2.
  rewrite H1, H2. intros [=].
Qed.

(** C8, amended. Two runs that meet the same store, and in which [str()]
    gives the same text for every object the encoder answers with it, write
    the same files with the same bytes in the same order once their setup
    succeeds, whether or not the output directory existed before, and end
    the same way; running again over what the first run left changes no
    file, and every file the run writes holds the same bytes after either
    run, whatever the output directory held before. *)
Theorem rerun_is_byte_identical
    (makedirs_fault open_fault : string → option string)
    (exists_first exists_again : string → bool)
    (root_first root_again : collection) (output_dir : string) :
  let first := retrieve_collection_with_subcollections makedirs_fault
                 open_fault exists_first root_first output_dir in
  let again := retrieve_collection_with_subcollections makedirs_fault
                 open_fault exists_again root_again output_dir in
  same_store_and_str root_first root_again →
  exists_first output_dir = true ∨ makedirs_fault output_dir = None →
  exists_again output_dir = true ∨ makedirs_fault output_dir = None →
  same_store root_first root_again ∧
  writes first.1 = writes again.1 ∧
  first.2 = again.2 ∧
  (∀ fs : gmap string string,
     files_after again.1 (files_after first.1 fs) = files_after first.1 fs) ∧
  (∀ (fs1 fs2 : gmap string string) file,
     file ∈ all_written first.1 →
     files_after first.1 fs1 !! file = files_after again.1 fs2 !! file).
Proof.
  intros first again Hsame Hfirst Hagain.
  assert (col_id root_first = col_id root_again) as Hid.
  { apply (f_equal col_id) in Hsame.
    by destruct root_first, root_again. }
  assert (∀ q, process_collection makedirs_fault open_fault output_dir q
                 root_first =
               process_collection makedirs_fault open_fault output_dir q
                 root_again) as Hrun.
  { intros q. rewrite <- (process_collection_forget _ _ _ root_first).
    rewrite <- (process_collection_forget _ _ _ root_again).
    unfold same_store_and_str in Hsame. by rewrite Hsame. }
  assert (col_fault root_first = col_fault root_again) as Hfault.
  { apply (f_equal col_fault) in Hsame.
    by destruct root_first, root_again. }
  assert (writes first.1 = writes again.1) as Hw.
  { unfold first, again. rewrite !retrieve_writes by done.
    unfold col_trace. by rewrite Hid, Hrun. }
  split_and!.
  - unfold same_store.
    rewrite <- (forget_str_col_all written_as_str root_first).
    rewrite <- (forget_str_col_all written_as_str root_again).
    unfold same_store_and_str in Hsame. by rewrite Hsame.
  - done.
  - unfold first, again. rewrite !retrieve_eq by done.
    rewrite Hid, Hfault.
    by destruct (Nat.even _), (col_fault root_again).
  - intros fs. rewrite <- (files_after_same_writes _ _ _ Hw).
    apply files_after_idempotent.
  - intros fs1 fs2 file Hfile. rewrite !files_after_lookup, <- Hw.
    rewrite all_written_writes in Hfile.
    by destruct (last_write_present _ _ Hfile) as [text ->].
Qed.

Lemma rerun_is_byte_identical_witness :
  let first := retrieve_collection_with_subcollections no_fault no_fault
                 nothing_exists (users_at (reference_at "0x7f3b2c1d4f10"))
                 "out" in
  let again := retrieve_collection_with_subcollections no_fault no_fault
                 everything_exists (users_at (reference_at "0x7fa1d80c2c40"))
                 "out" in
  writes first.1 =
    [(DataFile, "out/users/u1.json",
      "{" +:+ line_feed "  " +:+ quoted "at" +:+ ": {"
          +:+ line_feed "    " +:+ quoted "__firestore_reference__"
          +:+ ": true," +:+ line_feed "    " +:+ quoted "path" +:+ ": "
          +:+ quoted "users/u1" +:+ line_feed "  }" +:+ line_feed "}")] ∧
  writes again.1 = writes first.1 ∧
  files_after again.1 (files_after first.1 ∅) = files_after first.1 ∅.
Proof.
  intros first again.
  destruct (rerun_is_byte_identical no_fault no_fault nothing_exists
              everything_exists (users_at (reference_at "0x7f3b2c1d4f10"))
              (users_at (reference_at "0x7fa1d80c2c40")) "out"
              eq_refl (or_intror eq_refl) (or_introl eq_refl))
    as (_ & Hw & _ & H & _).
  fold first again in Hw, H. split_and!.
  - reflexivity.
  - by rewrite <- Hw.
  - apply H.
Defined.

(** The example of the specification: [users/u1] with [{name: "Ann"}]. *)
Example users_ann_run :
  (retrieve_collection_with_subcollections no_fault no_fault nothing_exists
     users_ann "output").1 =
  [Makedirs "output";
   Print "Created directory: output";
   Stream "users";
   Snapshot "users/u1";
   Get "users/u1";
   Makedirs "output/users";
   Write DataFile "output/users/u1.json"
     ("{" +:+ Json.newline_indent 1 +:+ Json.encoder "name" +:+ ": "
          +:+ Json.encoder "Ann" +:+ Json.newline_indent 0 +:+ "}");
   Print "Saved document users/u1 to output/users/u1.json";
   ListCollections "users/u1";
   Print "Retrieved collection 'users' with all subcollections"].
Proof. reflexivity. Qed.

(** * Further properties *)

(** ** When the encoder raises *)

Lemma enc_seq_error (a b : Json.enc) :
  (Json.enc_seq a b).2 = match a.2 with Some e => Some e | None => b.2 end.
Proof. by destruct a as [s [e|]]. Qed.

Lemma each_item_error {A} (item : A → Json.enc) separator first l :
  (Json.each_item item separator first l).2 = first_some (λ x, (item x).2) l.
Proof.
  revert first. induction l as [|x l IH]; intros first; [done|].
  cbn [Json.each_item first_some]. rewrite !enc_seq_error, IH.
  by destruct first, (item x).2.
Qed.

Lemma first_some_ext {A} (f g : A → option string) l :
  (∀ x, x ∈ l → f x = g x) → first_some f l = first_some g l.
Proof.
  induction l as [|x l IH]; intros H; [done|]. cbn [first_some].
  rewrite (H x) by by left. destruct (g x); [done|].
  apply IH. intros y Hy. apply H. by right.
Qed.

Lemma first_some_None {A} (f : A → option string) l :
  first_some f l = None ↔ ∀ x, x ∈ l → f x = None.
Proof.
  induction l as [|x l IH]; cbn [first_some].
  - split; [by intros _ x ?%elem_of_nil|done].
  - destruct (f x) eqn:Hx.
    + split; [done|]. intros H. rewrite <- Hx. apply H. by left.
    + rewrite IH. split.
      * intros H y [->|Hy]%elem_of_cons; auto.
      * intros H y Hy. apply H. by right.
Qed.

Lemma encode_object_error level o :
  (Json.encode_object FirestoreEncoder.default level o).2 =
  match FirestoreEncoder.default o with
  | Raises msg => Some msg
  | Returns _ => None
  end.
Proof.
  unfold Json.encode_object, FirestoreEncoder.default,
    FirestoreEncoder.call_isoformat, Json.base_default.
  destruct (has_timestamp o); [by destruct (isoformat o)|].
  destruct (is_datetime o); [by destruct (isoformat o)|].
  destruct (path_attr o); [done|].
  by destruct (has_document_path o || _).
Qed.

Lemma iterencode_error level v :
  (Json.iterencode (Json.encode_object FirestoreEncoder.default) level v).2 =
  first_error FirestoreEncoder.default v.
Proof.
  revert level. induction v using pyval_tree_ind; intros level; try done.
  - destruct b; done.
  - destruct xs as [|x xs]; [done|].
    cbn [Json.iterencode first_error]. rewrite !enc_seq_error. cbn [snd Json.yield].
    rewrite each_item_error.
    destruct (first_some _ (x :: xs)) eqn:E.
    + rewrite <- E. apply first_some_ext. intros y Hy.
      rewrite Forall_forall in H. by apply H.
    + rewrite <- E. apply first_some_ext. intros y Hy.
      rewrite Forall_forall in H. by apply H.
  - destruct items as [|kv items]; [done|].
    cbn [Json.iterencode first_error]. rewrite !enc_seq_error. cbn [snd Json.yield].
    rewrite each_item_error.
    destruct (first_some _ (kv :: items)) eqn:E.
    + rewrite <- E. apply first_some_ext. intros [k y] Hy.
      rewrite !enc_seq_error. cbn [snd Json.yield].
      rewrite Forall_forall in H. by apply (H (k, y)).
    + rewrite <- E. apply first_some_ext. intros [k y] Hy.
      rewrite !enc_seq_error. cbn [snd Json.yield].
      rewrite Forall_forall in H. by apply (H (k, y)).
  - apply encode_object_error.
Qed.

Lemma accepted_spec o :
  accepted o ↔ ∃ v, FirestoreEncoder.default o = Returns v.
Proof.
  unfold accepted, timestamp_like, store_specific, FirestoreEncoder.default,
    FirestoreEncoder.call_isoformat, Json.base_default.
  destruct (has_timestamp o); cbn [orb].
  { destruct (isoformat o); split; intros [? ?]; by eauto. }
  destruct (is_datetime o); cbn [orb].
  { destruct (isoformat o); split; intros [? ?]; by eauto. }
  destruct (path_attr o) as [p|].
  { split; [by eauto|]. intros _. left. by eexists. }
  destruct (has_document_path o || _).
  - split; [by eauto|]. intros _. by right.
  - split; [|by intros [? ?]]. by intros [[? ?]|?].
Qed.

Lemma Forall_flat_map {A B} (P : B → Prop) (f : A → list B) (l : list A) :
  Forall P (flat_map f l) ↔ ∀ x, x ∈ l → Forall P (f x).
Proof.
  induction l as [|x l IH]; cbn [flat_map].
  - split; [by intros _ x ?%elem_of_nil|by constructor].
  - rewrite Forall_app, IH. split.
    + intros [Hx Hl] y [->|Hy]%elem_of_cons; auto.
    + intros H. split; [apply H; by left|]. intros y Hy. apply H. by right.
Qed.

Lemma first_error_None v :
  first_error FirestoreEncoder.default v = None ↔ Forall accepted (objects v).
Proof.
  induction v using pyval_tree_ind; cbn [first_error objects];
    try (split; [by constructor|done]).
  - rewrite first_some_None, Forall_flat_map. rewrite Forall_forall in H.
    split; intros Hall x Hx; by apply (H x Hx), Hall.
  - rewrite first_some_None, Forall_flat_map. rewrite Forall_forall in H.
    split; intros Hall [k x] Hx; by apply (H (k, x) Hx), (Hall (k, x)).
  - rewrite Forall_singleton, accepted_spec.
    destruct (FirestoreEncoder.default o); naive_solver.
Qed.

(** X1. When the fields of an existing document hold an object the encoder
    refuses, [process_document] leaves the data file with the text yielded
    before that object and prints the error line of the first such object in
    document order; nothing else is done for the document. *)
Theorem refused_value_ends_document
    (makedirs_fault open_fault : string → option string)
    (base_path col_path : string) (d : document)
    (fields : list (string * pyval)) (msg : string) :
  let path := child_path col_path (doc_id d) in
  doc_get d = Returns (Present fields) →
  makedirs_fault (OsPath.dirname (dir_path base_path path)) = None →
  open_fault (file_path base_path path) = None →
  first_error FirestoreEncoder.default (PDict fields) = Some msg →
  doc_trace makedirs_fault open_fault base_path col_path d =
  [Get path;
   Makedirs (OsPath.dirname (dir_path base_path path));
   Write DataFile (file_path base_path path) (document_text fields).1;
   Print (document_error_line path msg)].
Proof.
  intros path Hget Hmk Hop Herr.
  unfold doc_trace. rewrite process_document_eq.
  unfold document_body, makedirs, write_json. fold path.
  rewrite Hget, Hmk, Hop.
  assert ((document_text fields).2 = Some msg) as ->; [|done].
  unfold document_text, Json.dump. by rewrite iterencode_error.
Qed.

Lemma refused_value_ends_document_witness :
  doc_trace no_fault no_fault "out" "users"
    (Document "u1"
       (Returns (Present [("name", PStr "Ann");
                          ("tags", PList [PStr "a"; PObj bytes_value;
                                          PObj geo_point_value])]))
       (Returns [posts_empty])) =
  [Get "users/u1";
   Makedirs "out/users";
   Write DataFile "out/users/u1.json"
     ("{" +:+ Json.newline_indent 1 +:+ Json.encoder "name" +:+ ": "
          +:+ Json.encoder "Ann" +:+ "," +:+ Json.newline_indent 1
          +:+ Json.encoder "tags" +:+ ": [" +:+ Json.newline_indent 2
          +:+ Json.encoder "a" +:+ "," +:+ Json.newline_indent 2);
   Print (document_error_line "users/u1"
            "Object of type bytes is not JSON serializable")].
Proof.
  apply (refused_value_ends_document no_fault no_fault "out" "users"
           (Document "u1"
              (Returns (Present [("name", PStr "Ann");
                                 ("tags", PList [PStr "a"; PObj bytes_value;
                                                 PObj geo_point_value])]))
              (Returns [posts_empty]))
           [("name", PStr "Ann");
            ("tags", PList [PStr "a"; PObj bytes_value; PObj geo_point_value])]
           "Object of type bytes is not JSON serializable"
           eq_refl eq_refl eq_refl eq_refl).
Defined.

(** X2. The fields of a document are serialized without an exception exactly
    when every object inside them, at any depth, is answered by one of the
    four branches of [FirestoreEncoder.default]: it is timestamp-like and its
    [isoformat()] returns, or it has a [path] attribute, or it is
    store-specific. *)
Theorem serialized_iff_accepted (fields : list (string * pyval)) :
  (document_text fields).2 = None ↔ Forall accepted (objects (PDict fields)).
Proof.
  unfold document_text, Json.dump. rewrite iterencode_error.
  apply first_error_None.
Qed.

Lemma serialized_iff_accepted_witness :
  (document_text [("by", PObj reference_value);
                  ("at", PList [PObj timestamp_value])]).2 = None.
Proof.
  apply serialized_iff_accepted. cbn [objects flat_map app].
  apply List.Forall_cons; [left; by eexists|].
  apply List.Forall_cons; [by eexists|]. apply List.Forall_nil.
Defined.

(** ** When a document's subcollections are visited *)

(** X3. [process_document] streams a subcollection of a document exactly
    when the document exists, its directory could be made, its data file
    opened and written in full, its subcollections listed and not empty, and
    its manifest opened. In every other case no subcollection of the
    document is read. *)
Theorem descends_iff_exported
    (makedirs_fault open_fault : string → option string)
    (base_path col_path : string) (d : document) :
  let path := child_path col_path (doc_id d) in
  streams (doc_trace makedirs_fault open_fault base_path col_path d) ≠ [] ↔
  ∃ fields text cs,
    doc_get d = Returns (Present fields) ∧
    makedirs_fault (OsPath.dirname (dir_path base_path path)) = None ∧
    open_fault (file_path base_path path) = None ∧
    document_text fields = (text, None) ∧
    doc_collections d = Returns cs ∧ cs ≠ [] ∧
    open_fault (subcollections_path base_path path) = None.
Proof.
  intros path. split.
  - destruct d as [id g cols]. unfold doc_trace.
    rewrite process_document_eq. unfold document_body, makedirs, write_json.
    cbn [doc_id doc_get doc_collections] in *. fold path.
    destruct g as [[|fields]|msg]; [by intros []|..|by intros []].
    destruct (makedirs_fault _) as [msg|] eqn:Hmk; [by intros []|].
    destruct (open_fault (file_path _ _)) as [msg|] eqn:Hop; [by intros []|].
    destruct (document_text fields) as [text [msg|]] eqn:Htext; [by intros []|].
    destruct cols as [[|c cs]|msg]; [by intros []|..|by intros []].
    destruct (open_fault (subcollections_path _ _)) as [msg|] eqn:Hopm;
      [by intros []|].
    intros _. by exists fields, text, (c :: cs).
  - intros (fields & text & cs & Hget & Hmk & Hop & Htext & Hcols & Hne & Hopm).
    rewrite (doc_trace_exported makedirs_fault open_fault base_path col_path d
               fields text cs Hget Hmk Hop Htext Hcols (λ _, Hopm)).
    destruct cs as [|c cs]; [done|]. unfold streams.
    rewrite omap_app, (omap_cons_match _ (Write _ _ _)). cbv beta iota.
    unfold descent. cbn [reached flat_map]. rewrite col_trace_eq, !omap_app.
    rewrite (omap_cons_match _ (Stream _)). cbv beta iota. done.
Qed.

Lemma descends_iff_exported_witness :
  streams (doc_trace no_fault no_fault "out" "users"
             (Document "u1" (Returns (Present [])) (Returns [posts_empty])))
    ≠ [].
Proof.
  apply (descends_iff_exported no_fault no_fault "out" "users"
           (Document "u1" (Returns (Present [])) (Returns [posts_empty]))).
  by exists [], "{}", [posts_empty].
Defined.

(** ** What a run covers *)

Section Coverage.
Variable makedirs_fault : string → option string.
Variable open_fault : string → option string.
Variable base_path : string.

Abbreviation doc_trace := (doc_trace makedirs_fault open_fault base_path).
Abbreviation col_trace := (col_trace makedirs_fault open_fault base_path).
Abbreviation descent := (descent makedirs_fault open_fault base_path).

Lemma prints_col_trace q c :
  prints (col_trace q c) =
  flat_map (λ d, prints (doc_trace q d)) (col_stream c).
Proof.
  rewrite col_trace_eq. unfold prints.
  rewrite omap_cons_match. cbv beta iota. by rewrite omap_visit_trace.
Qed.

Lemma sublist_flat_map_reached {B} (f g : collection → list B) cs :
  (∀ c, c ∈ cs → f c `sublist_of` g c) →
  flat_map f (reached cs) `sublist_of` flat_map g cs.
Proof.
  induction cs as [|c cs IH]; intros H; [done|].
  cbn [reached flat_map]. apply sublist_app; [apply H; by left|].
  destruct (col_fault c); [apply sublist_nil_l|].
  apply IH. intros c' Hc'. apply H. by right.
Qed.

Lemma healthy_streams cs :
  forallb healthy_col cs = true → streams_fail cs = false.
Proof.
  induction cs as [|[id ds f] cs IH]; [done|].
  cbn [forallb healthy_col streams_fail existsb col_fault].
  intros [[Hf _]%andb_true_iff Hcs]%andb_true_iff.
  apply bool_decide_eq_true in Hf. subst f. cbn. by apply IH.
Qed.

Lemma document_paths_returns col_path id g cs :
  document_paths col_path (Document id g (Returns cs)) =
  child_path col_path id
  :: flat_map (λ c, collection_paths
                      (child_path (child_path col_path id) (col_id c)) c) cs.
Proof. reflexivity. Qed.

Lemma own_only_within path rest t :
  own_only base_path path t → within_store base_path (path :: rest) t.
Proof.
  intros (Hg & _ & _ & Hm & Hd). unfold within_store. rewrite Hg, Hm.
  split_and!.
  - apply sublist_skip, sublist_nil_l.
  - rewrite fmap_cons.
    destruct Hd as [-> | ->]; [apply sublist_nil_l|].
    apply sublist_skip, sublist_nil_l.
  - apply sublist_nil_l.
Qed.

Lemma within_store_traversal c q :
  within_store base_path (collection_paths q c) (col_trace q c).
Proof.
  revert q.
  apply (collection_tree_ind
           (λ d, ∀ col_path,
              within_store base_path (document_paths col_path d) (doc_trace col_path d))
           (λ c, ∀ q, within_store base_path (collection_paths q c) (col_trace q c))).
  - intros id g msg col_path.
    destruct (doc_trace_shape makedirs_fault open_fault base_path col_path
                (Document id g (Raises msg)))
      as [Hown|(? & ? & ? & _ & _ & [=] & _)].
    by apply own_only_within.
  - intros id g cs IH col_path. rewrite Forall_forall in IH.
    rewrite document_paths_returns.
    destruct (doc_trace_shape makedirs_fault open_fault base_path col_path
                (Document id g (Returns cs)))
      as [Hown|(fields & text & cs' & _ & _ & [= <-] & _ & Ht)].
    { by apply own_only_within. }
    cbn [doc_id] in Ht. rewrite Ht. unfold within_store.
    rewrite gets_exported, written_data_exported, written_manifest_exported.
    rewrite !fmap_cons, !fmap_flat_map. split_and!.
    + apply sublist_skip, sublist_flat_map_reached. intros c' Hc.
      by apply IH.
    + apply sublist_skip, sublist_flat_map_reached. intros c' Hc.
      by apply IH.
    + apply sublist_skip, sublist_flat_map_reached. intros c' Hc.
      by apply IH.
  - intros id ds f IH q. rewrite Forall_forall in IH. unfold within_store.
    rewrite gets_col_trace, !written_col_trace. cbn [col_stream collection_paths].
    rewrite !fmap_flat_map. split_and!.
    + apply sublist_flat_map. intros d Hd. by apply IH.
    + apply sublist_flat_map. intros d Hd. by apply IH.
    + apply sublist_flat_map. intros d Hd. by apply IH.
Qed.

Hypothesis makedirs_works : ∀ dir, makedirs_fault dir = None.
Hypothesis open_works : ∀ file, open_fault file = None.

Lemma healthy_traversal c q :
  healthy_col c = true → exported_all base_path (collection_paths q c) (col_trace q c).
Proof.
  revert q.
  apply (collection_tree_ind
           (λ d, ∀ col_path, healthy_doc d = true →
              exported_all base_path (document_paths col_path d) (doc_trace col_path d))
           (λ c, ∀ q, healthy_col c = true →
              exported_all base_path (collection_paths q c) (col_trace q c))).
  - intros id [[|fields]|msg'] msg col_path Hh; discriminate Hh.
  - intros id g cs IH col_path Hh. rewrite Forall_forall in IH.
    destruct g as [[|fields]|msg]; try discriminate Hh.
    cbn [healthy_doc] in Hh. apply andb_true_iff in Hh as [Htext Hcs].
    apply bool_decide_eq_true in Htext. rewrite forallb_forall in Hcs.
    rewrite document_paths_returns.
    set (p := child_path col_path id).
    assert (∀ c', c' ∈ cs →
              exported_all base_path (collection_paths (child_path p (col_id c')) c')
                (col_trace (child_path p (col_id c')) c')) as Hsub.
    { intros c' Hc. apply IH; [done|]. apply Hcs. by apply list_elem_of_In. }
    rewrite (doc_trace_exported makedirs_fault open_fault base_path col_path
               (Document id (Returns (Present fields)) (Returns cs))
               fields (document_text fields).1 cs eq_refl
               (makedirs_works _) (open_works _));
      [|by rewrite <- Htext, <- surjective_pairing|done|by intros _].
    cbn [doc_id]. fold p. unfold exported_all.
    rewrite !fmap_cons, !fmap_flat_map.
    pose proof (healthy_streams cs
                  (proj2 (forallb_forall _ _) Hcs)) as Hsf.
    unfold Exporter.descent, loop_error.
    rewrite (reached_all cs Hsf), Hsf, app_nil_r.
    destruct cs as [|c0 cs]; [done|]. split_and!.
    + unfold gets. rewrite omap_app, (omap_cons_match _ (Write _ _ _)).
      cbv beta iota. rewrite omap_flat_map.
      cbn [omap list_omap app]. f_equal. apply flat_map_ext_elem.
      intros c1 Hc1. by destruct (Hsub c1 Hc1).
    + unfold written. rewrite omap_app, (omap_cons_match _ (Write _ _ _)).
      cbv beta iota. rewrite decide_False by done.
      rewrite omap_flat_map.
      cbn [omap list_omap app]. rewrite decide_True by done.
      cbn [app]. f_equal. apply flat_map_ext_elem.
      intros c1 Hc1. by destruct (Hsub c1 Hc1) as (_ & ? & _).
    + unfold prints. rewrite omap_app, (omap_cons_match _ (Write _ _ _)).
      cbv beta iota. rewrite omap_flat_map.
      cbn [omap list_omap app]. f_equal. apply flat_map_ext_elem.
      intros c1 Hc1. by destruct (Hsub c1 Hc1) as (_ & _ & ?).
  - intros id ds f IH q Hh. rewrite Forall_forall in IH.
    cbn [healthy_col] in Hh. apply andb_true_iff in Hh as [Hf Hds].
    apply bool_decide_eq_true in Hf. subst f. rewrite forallb_forall in Hds.
    assert (∀ d, d ∈ ds →
              exported_all base_path (document_paths q d) (doc_trace q d)) as Hsub.
    { intros d Hd. apply IH; [done|]. apply Hds. by apply list_elem_of_In. }
    unfold exported_all.
    rewrite gets_col_trace, written_col_trace, prints_col_trace.
    cbn [col_stream collection_paths].
    rewrite !fmap_flat_map. split_and!.
    + apply flat_map_ext_elem. intros d Hd. by destruct (Hsub d Hd).
    + apply flat_map_ext_elem. intros d Hd. by destruct (Hsub d Hd) as (_ & ? & _).
    + apply flat_map_ext_elem. intros d Hd. by destruct (Hsub d Hd) as (_ & _ & ?).
Qed.

End Coverage.

(** X4. Over a store in which every call succeeds, every document exists and
    holds only values the encoder accepts, and with a file system that
    refuses nothing, the run fetches every document of the tree, at every
    depth, in pre-order, writes the data file of each, and prints exactly one
    line per document, the one that reports it saved. *)
Theorem healthy_store_is_exported_in_full
    (makedirs_fault open_fault : string → option string)
    (base_path q : string) (c : collection) :
  (∀ dir, makedirs_fault dir = None) →
  (∀ file, open_fault file = None) →
  healthy_col c = true →
  let t := col_trace makedirs_fault open_fault base_path q c in
  gets t = collection_paths q c ∧
  written DataFile t = file_path base_path <$> collection_paths q c ∧
  prints t =
    (λ p, saved_line p (file_path base_path p)) <$> collection_paths q c.
Proof.
  intros Hmk Hop Hh.
  apply (healthy_traversal makedirs_fault open_fault base_path Hmk Hop c q Hh).
Qed.

Lemma healthy_store_is_exported_in_full_witness :
  gets (col_trace no_fault no_fault "out" "users" users_healthy) =
  ["users/u1"; "users/u1/posts/p1"; "users/u1/posts/p2"; "users/u2"].
Proof.
  destruct (healthy_store_is_exported_in_full no_fault no_fault "out" "users"
              users_healthy (λ _, eq_refl) (λ _, eq_refl) eq_refl)
    as (H & _).
  exact H.
Defined.

(** X5. Whatever fails, the documents a run fetches are documents of the
    store, in pre-order and none more often than the tree holds it, and the
    data files and manifests it writes are those of such documents, in the
    same order: a failure removes nodes from the walk, it never adds or
    reorders any. *)
Theorem run_stays_within_store
    (makedirs_fault open_fault : string → option string)
    (base_path q : string) (c : collection) :
  let t := col_trace makedirs_fault open_fault base_path q c in
  gets t `sublist_of` collection_paths q c ∧
  written DataFile t
    `sublist_of` (file_path base_path <$> collection_paths q c) ∧
  written ManifestFile t
    `sublist_of` (subcollections_path base_path <$> collection_paths q c).
Proof. apply within_store_traversal. Qed.

(** ** Where the files go *)

Lemma elem_all_written f t :
  f ∈ all_written t ↔ f ∈ written DataFile t ∨ f ∈ written ManifestFile t.
Proof.
  unfold all_written, written.
  induction t as [|e t IH]; [split; [by intros ?%elem_of_nil|by intros [?%elem_of_nil|?%elem_of_nil]]|].
  rewrite !omap_cons_match. destruct e as [| | | | |k file text|]; try done.
  destruct k.
  - rewrite decide_True, decide_False by done. rewrite !elem_of_cons, IH.
    naive_solver.
  - rewrite decide_False, decide_True by done. rewrite !elem_of_cons, IH.
    naive_solver.
Qed.

Lemma NoDup_all_written t :
  NoDup (written DataFile t) → NoDup (written ManifestFile t) →
  (∀ f, f ∈ written DataFile t → f ∉ written ManifestFile t) →
  NoDup (all_written t).
Proof.
  induction t as [|e t IH]; [constructor|].
  pose proof (elem_all_written) as Hall. revert Hall.
  unfold all_written, written. rewrite !omap_cons_match.
  destruct e as [| | | | |k file text|]; try (intros _; apply IH).
  intros Hall. destruct k.
  - rewrite decide_True, decide_False by done.
    intros [Hf Hd]%NoDup_cons Hm Hdisj. apply NoDup_cons. split.
    + intros [Hin|Hin]%Hall; [done|]. apply (Hdisj file); [by left|done].
    + apply IH; [done..|]. intros f Hin. apply Hdisj. by right.
  - rewrite decide_False, decide_True by done.
    intros Hd [Hf Hm]%NoDup_cons Hdisj. apply NoDup_cons. split.
    + intros [Hin|Hin]%Hall; [|done]. apply (Hdisj file Hin). by left.
    + apply IH; [done..|]. intros f Hin Hin'. apply (Hdisj f Hin). by right.
Qed.

Lemma join_step_prefix base acc s :
  PyStr.startswith_sep s = false →
  (∃ rest, acc = base +:+ rest) →
  ∃ rest, OsPath.join_step acc s = base +:+ rest.
Proof.
  intros Hs [rest ->]. unfold OsPath.join_step. rewrite Hs.
  destruct (_ || _).
  - exists (rest +:+ s). by rewrite str_app_assoc.
  - exists (rest +:+ PyStr.chr PyStr.sep +:+ s). by rewrite !str_app_assoc.
Qed.

Lemma fold_join_prefix base segs acc :
  Forall (λ s, PyStr.has_sep s = false) segs →
  (∃ rest, acc = base +:+ rest) →
  ∃ rest, fold_left OsPath.join_step segs acc = base +:+ rest.
Proof.
  intros Hfree. revert acc.
  induction Hfree as [|s segs Hs _ IH]; intros acc Hacc; [done|].
  cbn [fold_left]. apply IH. apply join_step_prefix; [|done].
  by apply startswith_sep_free.
Qed.

Lemma dir_path_prefix base p : ∃ rest, dir_path base p = base +:+ rest.
Proof.
  unfold dir_path, OsPath.join. apply fold_join_prefix.
  - apply split_segments_sep_free.
  - exists EmptyString. by rewrite str_app_nil_r.
Qed.

(** X6. Every file a run writes has a path that begins with the output
    directory as given: whatever the ids of the store are, empty or with
    slashes, no component of a store path makes [os.path.join] start over. *)
Theorem written_paths_begin_with_output
    (makedirs_fault open_fault : string → option string)
    (base_path q : string) (c : collection) (f : string) :
  f ∈ all_written (col_trace makedirs_fault open_fault base_path q c) →
  ∃ rest, f = base_path +:+ rest.
Proof.
  destruct (within_store_traversal makedirs_fault open_fault base_path c q)
    as (_ & D & M).
  intros [Hf|Hf]%elem_all_written.
  - pose proof (elem_of_sublist _ _ _ Hf D) as (p & -> & _)%list_elem_of_fmap.
    destruct (dir_path_prefix base_path p) as [rest Hrest].
    exists (rest +:+ ".json"). unfold file_path.
    by rewrite Hrest, str_app_assoc.
  - pose proof (elem_of_sublist _ _ _ Hf M) as (p & -> & _)%list_elem_of_fmap.
    destruct (dir_path_prefix base_path p) as [rest Hrest].
    exists (rest +:+ "_subcollections.json"). unfold subcollections_path.
    by rewrite Hrest, str_app_assoc.
Qed.

Lemma written_paths_begin_with_output_witness :
  ∃ rest, "out/users/u1_subcollections.json" = "out" +:+ rest.
Proof.
  apply (written_paths_begin_with_output no_fault no_fault "out" "users"
           users_clash).
  vm_compute. by left.
Defined.

(** X7. The path of the manifest of one document is the path of the data
    file of another exactly when the second document's path is the first's
    followed by [_subcollections]. *)
Theorem manifest_clashes_iff_suffix (base_path p1 p2 : string) :
  valid_path p1 = true → valid_path p2 = true →
  (subcollections_path base_path p1 = file_path base_path p2 ↔
   p2 = p1 +:+ "_subcollections").
Proof.
  intros H1 H2. rewrite subcollections_path_valid, file_path_valid by done.
  split.
  - intros Heq%str_app_inv_head.
    change "_subcollections.json" with ("_subcollections" +:+ ".json") in Heq.
    rewrite <- str_app_assoc in Heq. by apply str_app_inv_tail in Heq.
  - intros ->. by rewrite str_app_assoc.
Qed.

Lemma manifest_clashes_iff_suffix_witness :
  subcollections_path "out" "users/u1"
  = file_path "out" "users/u1_subcollections".
Proof.
  by apply (manifest_clashes_iff_suffix "out" "users/u1"
              "users/u1_subcollections" eq_refl eq_refl).
Defined.

(** X8. In a store with valid ids, unique among siblings, in which no
    document fetched has the path of another followed by [_subcollections],
    no file is written twice in a run: data files and manifests are all at
    different paths. *)
Theorem no_file_written_twice_without_clash
    (makedirs_fault open_fault : string → option string)
    (base_path q : string) (c : collection) :
  valid_path q = true → col_ok c = true →
  let t := col_trace makedirs_fault open_fault base_path q c in
  (∀ p1 p2, p1 ∈ gets t → p2 ∈ gets t → p2 ≠ p1 +:+ "_subcollections") →
  NoDup (all_written t).
Proof.
  intros Hq Hok t Hclash.
  destruct (collection_visit makedirs_fault open_fault base_path c q Hq Hok)
    as (N1 & _ & G & _ & D & M).
  fold t in N1, G, D, M.
  apply NoDup_all_written.
  - eapply sublist_NoDup; [|exact D]. apply NoDup_fmap_2_strong; [|done].
    intros p1 p2 H1 H2.
    apply file_path_inj; [by destruct (G p1 H1)|by destruct (G p2 H2)].
  - eapply sublist_NoDup; [|exact M]. apply NoDup_fmap_2_strong; [|done].
    intros p1 p2 H1 H2.
    apply subcollections_path_inj; [by destruct (G p1 H1)|by destruct (G p2 H2)].
  - intros f Hd Hm.
    pose proof (elem_of_sublist _ _ _ Hd D) as (p2 & -> & Hp2)%list_elem_of_fmap.
    pose proof (elem_of_sublist _ _ _ Hm M) as (p1 & Heq & Hp1)%list_elem_of_fmap.
    apply (Hclash p1 p2 Hp1 Hp2).
    destruct (G p1 Hp1) as [_ Hv1]. destruct (G p2 Hp2) as [_ Hv2].
    rewrite subcollections_path_valid, file_path_valid in Heq by done.
    apply str_app_inv_head in Heq.
    change "_subcollections.json" with ("_subcollections" +:+ ".json") in Heq.
    rewrite <- str_app_assoc in Heq. by apply str_app_inv_tail in Heq.
Qed.

Lemma no_file_written_twice_without_clash_witness :
  NoDup (all_written (col_trace no_fault no_fault "out" "users" users_healthy)).
Proof.
  apply (no_file_written_twice_without_clash no_fault no_fault "out" "users"
           users_healthy eq_refl eq_refl).
  assert (gets (col_trace no_fault no_fault "out" "users" users_healthy) =
          ["users/u1"; "users/u1/posts/p1"; "users/u1/posts/p2"; "users/u2"])
    as -> by reflexivity.
  intros p1 p2 H1 H2.
  repeat (apply elem_of_cons in H1 as [->|H1]);
    try (by apply elem_of_nil in H1);
    repeat (apply elem_of_cons in H2 as [->|H2]);
    try (by apply elem_of_nil in H2);
    intros E; vm_compute in E; discriminate E.
Defined.

(** ** The directory of a document *)

Section DirnameFacts.
Import PyStr.

Lemma head_part_sep_free s : has_sep s = false → OsPath.head_part s = EmptyString.
Proof. destruct s as [|c s]; [done|]. cbn [OsPath.head_part]. by intros ->. Qed.

Lemma head_part_app a id :
  has_sep id = false →
  OsPath.head_part (a +:+ String sep id) = a +:+ chr sep.
Proof.
  intros Hid. induction a as [|c a IH].
  - rewrite !str_app_nil_l. cbn [OsPath.head_part has_sep].
    rewrite Ascii.eqb_refl. cbn [orb]. by rewrite head_part_sep_free.
  - rewrite !str_app_cons. cbn [OsPath.head_part]. rewrite IH.
    assert (has_sep (String c (a +:+ String sep id)) = true) as ->; [|done].
    cbn [has_sep]. rewrite has_sep_app. cbn [has_sep].
    rewrite Ascii.eqb_refl. cbn [orb]. by rewrite !orb_true_r.
Qed.

Lemma rstrip_sep_snoc a : OsPath.rstrip_sep (a +:+ chr sep) = OsPath.rstrip_sep a.
Proof.
  induction a as [|c a IH].
  - reflexivity.
  - rewrite str_app_cons. cbn [OsPath.rstrip_sep]. by rewrite IH.
Qed.

Lemma rstrip_sep_id a : endswith_sep a = false → OsPath.rstrip_sep a = a.
Proof.
  induction a as [|c a IH]; [done|]. cbn [endswith_sep OsPath.rstrip_sep].
  destruct a as [|c' a]; [by intros ->|].
  intros H. by rewrite (IH H).
Qed.

Lemma all_sep_app a b : OsPath.all_sep (a +:+ b) = OsPath.all_sep a && OsPath.all_sep b.
Proof.
  induction a as [|c a IH]; [done|]. rewrite str_app_cons. cbn [OsPath.all_sep].
  by rewrite IH, andb_assoc.
Qed.

Lemma split_endswith_sep s :
  endswith_sep s = true → ∃ l, split s = l ++ [EmptyString].
Proof.
  induction s as [|c s IH]; [done|]. cbn [endswith_sep split].
  destruct s as [|c' s'].
  - intros ->. by exists [EmptyString].
  - intros H. destruct (IH H) as [l Hl]. rewrite Hl.
    destruct (Ascii.eqb c sep); [by exists (EmptyString :: l)|].
    destruct l as [|h l].
    + pose proof (join_split (String c' s')) as Hj. rewrite Hl in Hj.
      discriminate Hj.
    + by exists (String c h :: l).
Qed.

Lemma valid_path_ends q :
  valid_path q = true →
  is_empty q = false ∧ startswith_sep q = false ∧ endswith_sep q = false.
Proof.
  unfold valid_path. intros Hv. split_and!.
  - by destruct q.
  - destruct q as [|c q]; [done|]. cbn [startswith_sep].
    destruct (Ascii.eqb c sep) eqn:Hc; [|done].
    cbn [split] in Hv. by rewrite Hc in Hv.
  - destruct (endswith_sep q) eqn:He; [|done].
    destruct (split_endswith_sep q He) as [l Hl].
    rewrite Hl, forallb_app in Hv. cbn in Hv. by rewrite andb_false_r in Hv.
Qed.

Lemma dirname_child base q id :
  valid_path q = true → valid_id id = true →
  OsPath.dirname (dir_path base (child_path q id)) = dir_path base q.
Proof.
  intros Hq Hid. pose proof Hid as [Hne Hfree]%valid_id_spec.
  destruct (valid_path_ends q Hq) as (Hqe & Hqs & Hqend).
  rewrite !dir_path_valid by (done || by apply valid_path_child).
  unfold child_path. rewrite <- str_app_assoc.
  change ("/" +:+ id) with (String sep id).
  unfold OsPath.dirname. rewrite head_part_app by done.
  rewrite is_empty_app, all_sep_app, all_sep_app.
  assert (OsPath.all_sep q = false) as ->.
  { destruct q as [|c q]; [done|]. cbn in Hqs |- *. by rewrite Hqs. }
  rewrite (andb_false_r (OsPath.all_sep (with_sep base))).
  cbn [is_empty chr andb negb]. rewrite andb_false_r. cbn [negb andb].
  rewrite rstrip_sep_snoc. apply rstrip_sep_id.
  by rewrite endswith_sep_app.
Qed.

End DirnameFacts.

(** X9. For a valid collection path and document id, the directory
    [process_document] makes is the mirror of the collection path, the data
    file and the manifest lie directly in it, named after the document id,
    and the documents of a subcollection go to the directory named after the
    document and the subcollection, next to the document's own files. *)
Theorem document_files_lie_in_made_directory (base_path q id : string) :
  valid_path q = true → valid_id id = true →
  let made := OsPath.dirname (dir_path base_path (child_path q id)) in
  made = dir_path base_path q ∧
  made = with_sep base_path +:+ q ∧
  file_path base_path (child_path q id) = made +:+ "/" +:+ id +:+ ".json" ∧
  subcollections_path base_path (child_path q id) =
    made +:+ "/" +:+ id +:+ "_subcollections.json" ∧
  (∀ cid id', valid_id cid = true → valid_id id' = true →
     OsPath.dirname
       (dir_path base_path (child_path (child_path (child_path q id) cid) id'))
     = made +:+ "/" +:+ id +:+ "/" +:+ cid).
Proof.
  intros Hq Hid made.
  assert (made = dir_path base_path q) as Hmade by by apply dirname_child.
  assert (valid_path (child_path q id) = true) as Hp by by apply valid_path_child.
  rewrite Hmade, (dir_path_valid base_path q Hq). split_and!; try done.
  - rewrite file_path_valid by done. unfold child_path.
    by rewrite !str_app_assoc.
  - rewrite subcollections_path_valid by done. unfold child_path.
    by rewrite !str_app_assoc.
  - intros cid id' Hcid Hid'.
    rewrite dirname_child; [|by apply valid_path_child|done].
    rewrite dir_path_valid by by apply valid_path_child.
    unfold child_path. by rewrite !str_app_assoc.
Qed.

Lemma document_files_lie_in_made_directory_witness :
  OsPath.dirname (dir_path "out" (child_path "users/u1/posts" "p1"))
  = "out/users/u1/posts".
Proof.
  destruct (document_files_lie_in_made_directory "out" "users/u1/posts" "p1"
              eq_refl eq_refl) as (_ & H & _).
  exact H.
Defined.

(** ** The run as a whole *)

(** X10. [retrieve_collection_with_subcollections] ends in one of four
    ways. When the output directory does not exist and cannot be made, it
    raises the exception of [os.makedirs], having read nothing from the
    store and printed nothing. Once the directory is there, it raises
    [ValueError] when the collection name has an even number of segments,
    after the setup and before any read; it raises the [AttributeError] of
    the handler of [process_collection] when the stream of the root
    collection fails, after the events of the root collection; and in every
    other case it returns, after the setup, the events of the root
    collection and, last, the line that reports the collection retrieved. *)
Theorem retrieve_outcome
    (makedirs_fault open_fault : string → option string)
    (exists_before : string → bool) (root : collection) (output_dir : string) :
  let run := retrieve_collection_with_subcollections makedirs_fault open_fault
               exists_before root output_dir in
  let setup_done :=
    exists_before output_dir = true ∨ makedirs_fault output_dir = None in
  let even_name := Nat.even (length (PyStr.split (col_id root))) in
  let setup :=
    if exists_before output_dir then []
    else [Makedirs output_dir;
          Print ("Created directory: " +:+ output_dir)] in
  (∀ msg, exists_before output_dir = false →
          makedirs_fault output_dir = Some msg →
          run = ([], Raises msg)) ∧
  (setup_done → even_name = true →
   run = (setup,
          Raises "A collection must have an odd number of path elements")) ∧
  (∀ msg, setup_done → even_name = false → col_fault root = Some msg →
   run = (setup ++ col_trace makedirs_fault open_fault output_dir
                     (col_id root) root,
          Raises "'CollectionReference' object has no attribute 'path'")) ∧
  (setup_done → even_name = false → col_fault root = None →
   run = (setup ++ col_trace makedirs_fault open_fault output_dir
                     (col_id root) root
                ++ [Print ("Retrieved collection '" +:+ col_id root
                             +:+ "' with all subcollections")],
          Returns tt)) ∧
  (run.2 = Returns tt ↔
   setup_done ∧ even_name = false ∧ col_fault root = None).
Proof.
  intros run setup_done even_name setup.
  assert (setup_done → 
          run = if even_name
                then (setup, Raises collection_path_error)
                else match col_fault root with
                     | Some _ =>
                         (setup ++ col_trace makedirs_fault open_fault
                                     output_dir (col_id root) root,
                          Raises attribute_error_path)
                     | None =>
                         (setup ++ col_trace makedirs_fault open_fault
                                     output_dir (col_id root) root
                                ++ [Print (retrieved_line (col_id root))],
                          Returns tt)
                     end) as Hrun.
  { intros Hs. unfold run. by rewrite retrieve_eq. }
  assert (∀ msg, exists_before output_dir = false →
            makedirs_fault output_dir = Some msg →
            run = ([], Raises msg)) as Hfail.
  { intros msg He Hm.
    unfold run, retrieve_collection_with_subcollections, makedirs.
    by rewrite He, Hm. }
  split_and!.
  - done.
  - intros Hs He. by rewrite (Hrun Hs), He.
  - intros msg Hs He Hf. by rewrite (Hrun Hs), He, Hf.
  - intros Hs He Hf. by rewrite (Hrun Hs), He, Hf.
  - split.
    + intros Hr.
      assert (setup_done) as Hs.
      { unfold setup_done.
        destruct (exists_before output_dir) eqn:He; [by left|].
        destruct (makedirs_fault output_dir) as [msg|] eqn:Hm; [|by right].
        by rewrite (Hfail msg) in Hr. }
      split; [done|]. rewrite (Hrun Hs) in Hr.
      by destruct even_name, (col_fault root).
    + intros (Hs & He & Hf). by rewrite (Hrun Hs), He, Hf.
Qed.

Lemma retrieve_outcome_witness :
  retrieve_collection_with_subcollections
    (λ dir, if decide (dir = "/readonly") then Some "Permission denied"
            else None)
    no_fault nothing_exists users_healthy "/readonly"
  = ([], Raises "Permission denied") ∧
  retrieve_collection_with_subcollections no_fault no_fault nothing_exists
    (Collection "users/u1" [] None) "out"
  = ([Makedirs "out"; Print "Created directory: out"],
     Raises "A collection must have an odd number of path elements") ∧
  retrieve_collection_with_subcollections no_fault no_fault everything_exists
    (Collection "users" [] (Some "503 unavailable")) "out"
  = ([Stream "users"],
     Raises "'CollectionReference' object has no attribute 'path'") ∧
  retrieve_collection_with_subcollections no_fault no_fault everything_exists
    (Collection "users" [] None) "out"
  = ([Stream "users";
      Print "Retrieved collection 'users' with all subcollections"],
     Returns tt).
Proof.
  set (mk := λ dir : string,
         if decide (dir = "/readonly") then Some "Permission denied" else None).
  split_and!.
  - destruct (retrieve_outcome mk no_fault nothing_exists users_healthy
                "/readonly") as (H & _).
    by apply H.
  - destruct (retrieve_outcome no_fault no_fault nothing_exists
                (Collection "users/u1" [] None) "out") as (_ & H & _).
    apply H; [by right|done].
  - destruct (retrieve_outcome no_fault no_fault everything_exists
                (Collection "users" [] (Some "503 unavailable")) "out")
      as (_ & _ & H & _).
    apply (H "503 unavailable"); [by left|done|done].
  - destruct (retrieve_outcome no_fault no_fault everything_exists
                (Collection "users" [] None) "out")
      as (_ & _ & _ & H & _).
    apply H; [by left|done|done].
Defined.

(** ** A data file follows the fetch of its document *)

Section DataOrder.
Variable makedirs_fault : string → option string.
Variable open_fault : string → option string.
Variable base_path : string.

Abbreviation doc_trace := (doc_trace makedirs_fault open_fault base_path).
Abbreviation col_trace := (col_trace makedirs_fault open_fault base_path).
Abbreviation descent := (descent makedirs_fault open_fault base_path).

Lemma data_guarded_nil : data_guarded base_path [].
Proof. intros [|??] ??? H; discriminate H. Qed.

Lemma data_guarded_app t t' :
  data_guarded base_path t → data_guarded base_path t' →
  data_guarded base_path (t ++ t').
Proof.
  intros Ht Ht' t1 f text t2 Heq.
  apply app_eq_middle in Heq as [(m & -> & ->)|(m & -> & ->)].
  - by apply (Ht t1 f text m).
  - destruct (Ht' m f text t2 eq_refl) as (p & ? & Hg & Hm).
    exists p. split_and!; [done|..]; apply elem_of_app; by right.
Qed.

Lemma data_guarded_flat_map {A} (f : A → list event) (l : list A) :
  (∀ x, x ∈ l → data_guarded base_path (f x)) →
  data_guarded base_path (flat_map f l).
Proof.
  induction l as [|x l IH]; intros H; [apply data_guarded_nil|].
  cbn [flat_map]. apply data_guarded_app; [apply H; by left|].
  apply IH. intros y Hy. apply H. by right.
Qed.

Lemma data_guarded_no_data t :
  written DataFile t = [] → data_guarded base_path t.
Proof.
  intros Hw t1 f text t2 ->. exfalso. revert Hw. unfold written.
  rewrite omap_app, omap_cons_match. cbv beta iota.
  rewrite decide_True by done. by destruct (omap _ t1).
Qed.

Lemma data_guarded_own p text own :
  written DataFile own = [] →
  data_guarded base_path
    ([Get p; Makedirs (OsPath.dirname (dir_path base_path p));
      Write DataFile (file_path base_path p) text] ++ own).
Proof.
  intros Hown t1 f text' t2 Heq.
  change ([Get p; Makedirs (OsPath.dirname (dir_path base_path p));
           Write DataFile (file_path base_path p) text] ++ own)
    with ([Get p; Makedirs (OsPath.dirname (dir_path base_path p))]
          ++ Write DataFile (file_path base_path p) text :: own) in Heq.
  apply app_eq_middle in Heq as [(m & Heq & _)|(m & -> & Heq)].
  - exfalso. destruct t1 as [|e1 [|e2 [|e3 t1]]]; discriminate Heq.
  - destruct m as [|e m].
    + injection Heq as Hf _ _. exists p. rewrite app_nil_r.
      split_and!; [done|by left|right; by left].
    + exfalso. injection Heq as _ Heq. subst own. revert Hown.
      unfold written. rewrite omap_app, omap_cons_match. cbv beta iota.
      rewrite decide_True by done. by destruct (omap _ m).
Qed.

Lemma doc_trace_data_shape col_path d :
  let p := child_path col_path (doc_id d) in
  written DataFile (doc_trace col_path d) = [] ∨
  ∃ text own cs,
    doc_trace col_path d =
      ([Get p; Makedirs (OsPath.dirname (dir_path base_path p));
        Write DataFile (file_path base_path p) text] ++ own)
      ++ descent p cs ++ loop_error p cs ∧
    written DataFile own = [] ∧
    (cs = [] ∨ doc_collections d = Returns cs).
Proof.
  destruct d as [id g cols]. unfold Exporter.doc_trace.
  rewrite process_document_eq. unfold document_body, makedirs, write_json.
  cbn [doc_id doc_get doc_collections].
  destruct g as [[|fields]|msg]; [by left| |by left].
  destruct (makedirs_fault _) as [msg|]; [by left|].
  destruct (open_fault (file_path _ _)) as [msg|]; [by left|].
  right. destruct (document_text fields) as [text [msg|]] eqn:Htext.
  { eexists text, [_], []. split_and!;
      [cbn; rewrite ?app_nil_r; reflexivity|done|by left]. }
  destruct cols as [[|c cs]|msg].
  - eexists text, [_; _], []. split_and!;
      [cbn; rewrite ?app_nil_r; reflexivity|done|by left].
  - destruct (open_fault (subcollections_path _ _)) as [msg|] eqn:Hopen.
    { eexists text, [_; _; _], []. split_and!;
      [cbn; rewrite ?app_nil_r; reflexivity|done|by left]. }
    exists text,
      [Print (saved_line (child_path col_path id)
                (file_path base_path (child_path col_path id)));
       ListCollections (child_path col_path id);
       Write ManifestFile
         (subcollections_path base_path (child_path col_path id))
         (manifest_text (get_all_subcollections (c :: cs))).1],
      (c :: cs).
    split_and!; [|done|by right].
    rewrite manifest_text_complete, for_each_collections.
    unfold loop_error. destruct (streams_fail (c :: cs)); cbn;
      by rewrite ?app_nil_r.
  - eexists text, [_; _; _], []. split_and!;
      [cbn; rewrite ?app_nil_r; reflexivity|done|by left].
Qed.

Lemma data_guarded_traversal c q : data_guarded base_path (col_trace q c).
Proof.
  revert q.
  apply (collection_tree_ind
           (λ d, ∀ col_path, data_guarded base_path (doc_trace col_path d))
           (λ c, ∀ q, data_guarded base_path (col_trace q c))).
  - intros id g msg col_path.
    destruct (doc_trace_data_shape col_path (Document id g (Raises msg)))
      as [Hno|(text & own & cs & Ht & Hown & [->|[=]])].
    { by apply data_guarded_no_data. }
    rewrite Ht. apply data_guarded_app; [by apply data_guarded_own|].
    apply data_guarded_nil.
  - intros id g cs IH col_path.
    destruct (doc_trace_data_shape col_path (Document id g (Returns cs)))
      as [Hno|(text & own & cs' & Ht & Hown & Hcs)].
    { by apply data_guarded_no_data. }
    rewrite Ht. apply data_guarded_app; [by apply data_guarded_own|].
    destruct Hcs as [->|[= <-]]; [apply data_guarded_nil|].
    apply data_guarded_app.
    + apply data_guarded_flat_map. intros c' Hc%reached_elem.
      rewrite Forall_forall in IH. by apply IH.
    + apply data_guarded_no_data. unfold written. by apply omap_loop_error.
  - intros id ds f IH q. rewrite col_trace_eq. cbn [col_stream].
    apply (data_guarded_app [Stream q]); [by apply data_guarded_no_data|].
    apply data_guarded_flat_map. intros d Hd. rewrite Forall_forall in IH.
    apply (data_guarded_app [Snapshot _]); [by apply data_guarded_no_data|].
    by apply IH.
Qed.

(** *** Every document fetched is logged *)

Lemma fetch_logged_app t t' :
  fetch_logged base_path t → fetch_logged base_path t' →
  fetch_logged base_path (t ++ t').
Proof.
  intros Ht Ht' t1 p t2 Heq.
  apply app_eq_middle in Heq as [(m & -> & ->)|(m & -> & ->)].
  - destruct (Ht t1 p m eq_refl) as (own & line & rest & -> & Hline & Hown).
    exists own, line, (rest ++ t'). split_and!; try done.
    by rewrite <- app_assoc.
  - by apply (Ht' m p t2).
Qed.

Lemma fetch_logged_no_fetch t : gets t = [] → fetch_logged base_path t.
Proof.
  intros Hg t1 p t2 ->. exfalso. revert Hg. unfold gets.
  rewrite omap_app, omap_cons_match. by destruct (omap _ t1).
Qed.

Lemma fetch_logged_flat_map {A} (f : A → list event) (l : list A) :
  (∀ x, x ∈ l → fetch_logged base_path (f x)) →
  fetch_logged base_path (flat_map f l).
Proof.
  induction l as [|x l IH]; intros H; [by apply fetch_logged_no_fetch|].
  cbn [flat_map]. apply fetch_logged_app; [apply H; by left|].
  apply IH. intros y Hy. apply H. by right.
Qed.

Lemma fetch_logged_own p own line :
  (line = "Document " +:+ p +:+ " does not exist" ∨
   line = "Saved document " +:+ p +:+ " to " +:+ file_path base_path p ∨
   ∃ msg, line = "Error processing document " +:+ p +:+ ": " +:+ msg) →
  (own = [] ∨
   own = [Makedirs (OsPath.dirname (dir_path base_path p))] ∨
   ∃ text,
     own = [Makedirs (OsPath.dirname (dir_path base_path p));
            Write DataFile (file_path base_path p) text]) →
  fetch_logged base_path (Get p :: own ++ [Print line]).
Proof.
  intros Hline Hown t1 p' t2 Heq.
  assert (t1 = [] ∧ p' = p ∧ t2 = own ++ [Print line]) as (-> & -> & ->).
  { destruct Hown as [->|[->|(text & ->)]];
      destruct t1 as [|e1 [|e2 [|e3 [|e4 t1]]]]; simplify_eq/=; try done;
      by destruct t1. }
  exists own, line, []. by split_and!.
Qed.

Lemma doc_trace_fetch_shape col_path d :
  let p := child_path col_path (doc_id d) in
  ∃ own line tail cs,
    doc_trace col_path d =
      (Get p :: own ++ [Print line])
      ++ tail ++ descent p cs ++ loop_error p cs ∧
    (line = "Document " +:+ p +:+ " does not exist" ∨
     line = "Saved document " +:+ p +:+ " to " +:+ file_path base_path p ∨
     ∃ msg, line = "Error processing document " +:+ p +:+ ": " +:+ msg) ∧
    (own = [] ∨
     own = [Makedirs (OsPath.dirname (dir_path base_path p))] ∨
     ∃ text,
       own = [Makedirs (OsPath.dirname (dir_path base_path p));
              Write DataFile (file_path base_path p) text]) ∧
    gets tail = [] ∧
    (cs = [] ∨ doc_collections d = Returns cs).
Proof.
  destruct d as [id g cols]. unfold Exporter.doc_trace.
  rewrite process_document_eq. unfold document_body, makedirs, write_json.
  cbn [doc_id doc_get doc_collections].
  set (p := child_path col_path id).
  destruct g as [[|fields]|msg].
  - exists [], ("Document " +:+ p +:+ " does not exist"), [], [].
    split_and!; try done; by left.
  - destruct (makedirs_fault _) as [msg|].
    { exists [], ("Error processing document " +:+ p +:+ ": " +:+ msg), [], [].
      split_and!; try done; [right; right; by exists msg|by left|by left]. }
    destruct (open_fault (file_path _ _)) as [msg|].
    { exists [Makedirs (OsPath.dirname (dir_path base_path p))],
        ("Error processing document " +:+ p +:+ ": " +:+ msg), [], [].
      split_and!; try done;
        [right; right; by exists msg|right; by left|by left]. }
    destruct (document_text fields) as [text [msg|]] eqn:Htext.
    { exists [Makedirs (OsPath.dirname (dir_path base_path p));
              Write DataFile (file_path base_path p) text],
        ("Error processing document " +:+ p +:+ ": " +:+ msg), [], [].
      split_and!; try done;
        [right; right; by exists msg|right; right; by exists text|by left]. }
    destruct cols as [[|c cs]|msg].
    + exists [Makedirs (OsPath.dirname (dir_path base_path p));
              Write DataFile (file_path base_path p) text],
        ("Saved document " +:+ p +:+ " to " +:+ file_path base_path p),
        [ListCollections p], [].
      split_and!; try done;
        [right; by left|right; right; by exists text|by left].
    + destruct (open_fault (subcollections_path _ _)) as [msg|] eqn:Hopen.
      { exists [Makedirs (OsPath.dirname (dir_path base_path p));
                Write DataFile (file_path base_path p) text],
          ("Saved document " +:+ p +:+ " to " +:+ file_path base_path p),
          [ListCollections p;
           Print ("Error processing document " +:+ p +:+ ": " +:+ msg)], [].
        split_and!; try done;
          [right; by left|right; right; by exists text|by left]. }
      exists [Makedirs (OsPath.dirname (dir_path base_path p));
              Write DataFile (file_path base_path p) text],
        ("Saved document " +:+ p +:+ " to " +:+ file_path base_path p),
        [ListCollections p;
         Write ManifestFile (subcollections_path base_path p)
           (manifest_text (get_all_subcollections (c :: cs))).1],
        (c :: cs).
      split_and!; try done;
        [|right; by left|right; right; by exists text|by right].
      rewrite manifest_text_complete, for_each_collections.
      unfold loop_error. destruct (streams_fail (c :: cs)); cbn;
        by rewrite ?app_nil_r.
    + exists [Makedirs (OsPath.dirname (dir_path base_path p));
              Write DataFile (file_path base_path p) text],
        ("Saved document " +:+ p +:+ " to " +:+ file_path base_path p),
        [ListCollections p;
         Print ("Error processing document " +:+ p +:+ ": " +:+ msg)], [].
      split_and!; try done;
        [right; by left|right; right; by exists text|by left].
  - exists [], ("Error processing document " +:+ p +:+ ": " +:+ msg), [], [].
    split_and!; try done; [right; right; by exists msg|by left|by left].
Qed.

Lemma fetch_logged_traversal c q : fetch_logged base_path (col_trace q c).
Proof.
  revert q.
  apply (collection_tree_ind
           (λ d, ∀ col_path, fetch_logged base_path (doc_trace col_path d))
           (λ c, ∀ q, fetch_logged base_path (col_trace q c))).
  - intros id g msg col_path.
    destruct (doc_trace_fetch_shape col_path (Document id g (Raises msg)))
      as (own & line & tail & cs & Ht & Hline & Hown & Htail & [->|[=]]).
    rewrite Ht. apply fetch_logged_app; [by apply fetch_logged_own|].
    apply fetch_logged_app; by apply fetch_logged_no_fetch.
  - intros id g cs IH col_path.
    destruct (doc_trace_fetch_shape col_path (Document id g (Returns cs)))
      as (own & line & tail & cs' & Ht & Hline & Hown & Htail & Hcs).
    rewrite Ht. apply fetch_logged_app; [by apply fetch_logged_own|].
    apply fetch_logged_app; [by apply fetch_logged_no_fetch|].
    destruct Hcs as [->|[= <-]]; [by apply fetch_logged_no_fetch|].
    apply fetch_logged_app.
    + apply fetch_logged_flat_map. intros c' Hc%reached_elem.
      rewrite Forall_forall in IH. by apply IH.
    + apply fetch_logged_no_fetch. by apply omap_loop_error.
  - intros id ds f IH q. rewrite col_trace_eq. cbn [col_stream].
    apply (fetch_logged_app [Stream q]); [by apply fetch_logged_no_fetch|].
    apply fetch_logged_flat_map. intros d Hd. rewrite Forall_forall in IH.
    apply (fetch_logged_app [Snapshot _]); [by apply fetch_logged_no_fetch|].
    by apply IH.
Qed.

End DataOrder.

(** X11. At every point of a run, a data file that has been written is the
    data file of a document that was fetched before, and was written after
    [os.makedirs] made the directory for that document. *)
Theorem data_file_follows_fetch
    (makedirs_fault open_fault : string → option string)
    (base_path q : string) (c : collection)
    (t1 t2 : list event) (f text : string) :
  col_trace makedirs_fault open_fault base_path q c
    = t1 ++ Write DataFile f text :: t2 →
  ∃ p, f = file_path base_path p ∧ Get p ∈ t1 ∧
       Makedirs (OsPath.dirname (dir_path base_path p)) ∈ t1.
Proof. apply data_guarded_traversal. Qed.

Lemma data_file_follows_fetch_witness :
  ∃ p, "out/users/u2.json" = file_path "out" p ∧
       Get p ∈ take 10 (col_trace no_fault no_fault "out" "users" users_faulty).
Proof.
  destruct (data_file_follows_fetch no_fault no_fault "out" "users"
              users_faulty
              (take 10 (col_trace no_fault no_fault "out" "users" users_faulty))
              (drop 11 (col_trace no_fault no_fault "out" "users" users_faulty))
              "out/users/u2.json"
              (document_text [("blob", PObj bytes_value)]).1 eq_refl)
    as (p & Hf & Hg & _).
  by exists p.
Defined.

(** X12. No document is passed over silently: after a run has fetched a
    document, the next line it prints is about that document, with its path:
    that it does not exist, that it was saved, or that processing it failed.
    Until that line the run reads nothing more from the store: it only makes
    the directory of the document and writes its data file. *)
Theorem fetched_document_is_logged
    (makedirs_fault open_fault : string → option string)
    (base_path q : string) (c : collection)
    (t1 t2 : list event) (p : string) :
  col_trace makedirs_fault open_fault base_path q c = t1 ++ Get p :: t2 →
  ∃ own line rest,
    t2 = own ++ Print line :: rest ∧
    (line = "Document " +:+ p +:+ " does not exist" ∨
     line = "Saved document " +:+ p +:+ " to " +:+ file_path base_path p ∨
     ∃ msg, line = "Error processing document " +:+ p +:+ ": " +:+ msg) ∧
    (own = [] ∨
     own = [Makedirs (OsPath.dirname (dir_path base_path p))] ∨
     ∃ text,
       own = [Makedirs (OsPath.dirname (dir_path base_path p));
              Write DataFile (file_path base_path p) text]).
Proof. apply fetch_logged_traversal. Qed.

Lemma fetched_document_is_logged_witness :
  ∃ own rest,
    drop 9 (col_trace no_fault no_fault "out" "users" users_faulty) =
    own ++ Print "Error processing document users/u2: Object of type bytes is not JSON serializable"
        :: rest.
Proof.
  destruct (fetched_document_is_logged no_fault no_fault "out" "users"
              users_faulty
              (take 8 (col_trace no_fault no_fault "out" "users" users_faulty))
              (drop 9 (col_trace no_fault no_fault "out" "users" users_faulty))
              "users/u2" eq_refl)
    as (own & line & rest & Ht & Hline & Hown).
  exists own, rest. rewrite Ht. do 2 f_equal.
  destruct Hown as [->|[->|(text & ->)]]; vm_compute in Ht; by simplify_eq.
Defined.

(** ** What the log says of a saved document *)

Section SavedLines.
Variable makedirs_fault : string → option string.
Variable open_fault : string → option string.
Variable base_path : string.

Abbreviation doc_trace := (doc_trace makedirs_fault open_fault base_path).
Abbreviation col_trace := (col_trace makedirs_fault open_fault base_path).
Abbreviation descent := (descent makedirs_fault open_fault base_path).

Lemma saved_guarded_app t t' :
  saved_guarded base_path t → saved_guarded base_path t' →
  saved_guarded base_path (t ++ t').
Proof.
  intros Ht Ht' t1 line t2 Heq Hline.
  apply app_eq_middle in Heq as [(m & -> & ->)|(m & -> & ->)].
  - by apply (Ht t1 line m).
  - destruct (Ht' m line t2 eq_refl Hline) as (p & fields & text & t0 & ? & ? & ->).
    exists p, fields, text, (t ++ t0). by rewrite app_assoc.
Qed.

Lemma saved_guarded_flat_map {A} (f : A → list event) (l : list A) :
  (∀ x, x ∈ l → saved_guarded base_path (f x)) →
  saved_guarded base_path (flat_map f l).
Proof.
  induction l as [|x l IH]; intros H.
  { intros [|??] ?? Heq; discriminate Heq. }
  cbn [flat_map]. apply saved_guarded_app; [apply H; by left|].
  apply IH. intros y Hy. apply H. by right.
Qed.

Lemma saved_guarded_silent t :
  (∀ line, Print line ∈ t → String.prefix "Saved" line = false) →
  saved_guarded base_path t.
Proof.
  intros Ht t1 line t2 -> Hline. rewrite Ht in Hline; [done|].
  apply elem_of_app. right. by left.
Qed.

Lemma saved_guarded_pair p fields text :
  document_text fields = (text, None) →
  saved_guarded base_path
    [Write DataFile (file_path base_path p) text;
     Print (saved_line p (file_path base_path p))].
Proof.
  intros Htext t1 line t2 Heq _.
  destruct t1 as [|e1 [|e2 t1]]; try discriminate Heq.
  - injection Heq as <- <- _. by exists p, fields, text, [].
  - injection Heq as _ _ Heq. by destruct t1.
Qed.

Lemma doc_trace_saved_shape col_path d :
  let p := child_path col_path (doc_id d) in
  (∀ line, Print line ∈ doc_trace col_path d →
           String.prefix "Saved" line = false) ∨
  ∃ fields text pre post cs,
    document_text fields = (text, None) ∧
    doc_trace col_path d =
      pre ++ [Write DataFile (file_path base_path p) text;
              Print (saved_line p (file_path base_path p))]
          ++ post ++ descent p cs ++ loop_error p cs ∧
    (∀ line, Print line ∈ pre ++ post → String.prefix "Saved" line = false) ∧
    (cs = [] ∨ doc_collections d = Returns cs).
Proof.
  destruct d as [id g cols]. unfold Exporter.doc_trace.
  rewrite process_document_eq. unfold document_body, makedirs, write_json.
  cbn [doc_id doc_get doc_collections].
  set (p := child_path col_path id).
  assert (∀ t : list event,
            Forall (λ e, match e with
                         | Print line => String.prefix "Saved" line = false
                         | _ => True
                         end) t →
            ∀ line, Print line ∈ t → String.prefix "Saved" line = false)
    as Hsilent.
  { intros t Ht line Hin. rewrite Forall_forall in Ht. apply (Ht _ Hin). }
  destruct g as [[|fields]|msg];
    [left; apply Hsilent; by repeat constructor| |
     left; apply Hsilent; by repeat constructor].
  destruct (makedirs_fault _) as [msg|];
    [left; apply Hsilent; by repeat constructor|].
  destruct (open_fault (file_path _ _)) as [msg|];
    [left; apply Hsilent; by repeat constructor|].
  destruct (document_text fields) as [text [msg|]] eqn:Htext;
    [left; apply Hsilent; by repeat constructor|].
  right. exists fields, text, [Get p; Makedirs (OsPath.dirname (dir_path base_path p))].
  destruct cols as [[|c cs]|msg].
  - exists [ListCollections p], [].
    split_and!; [done|done|apply Hsilent; by repeat constructor|by left].
  - destruct (open_fault (subcollections_path _ _)) as [msg|] eqn:Hopen.
    { exists [ListCollections p; Print (document_error_line p msg)], [].
      split_and!; [done|done|apply Hsilent; by repeat constructor|by left]. }
    exists [ListCollections p;
            Write ManifestFile (subcollections_path base_path p)
              (manifest_text (get_all_subcollections (c :: cs))).1],
           (c :: cs).
    split_and!; [done| |apply Hsilent; by repeat constructor|by right].
    rewrite manifest_text_complete, for_each_collections.
    unfold loop_error. destruct (streams_fail (c :: cs)); cbn;
      by rewrite ?app_nil_r.
  - exists [ListCollections p; Print (document_error_line p msg)], [].
    split_and!; [done|done|apply Hsilent; by repeat constructor|by left].
Qed.

Lemma saved_guarded_traversal c q : saved_guarded base_path (col_trace q c).
Proof.
  revert q.
  assert (∀ col_path d,
            (∀ cs, doc_collections d = Returns cs →
               ∀ c', c' ∈ cs → ∀ q, saved_guarded base_path (col_trace q c')) →
            saved_guarded base_path (doc_trace col_path d)) as Hdoc.
  { intros col_path d IH.
    destruct (doc_trace_saved_shape col_path d)
      as [Hno|(fields & text & pre & post & cs & Htext & Ht & Hsilent & Hcs)].
    { by apply saved_guarded_silent. }
    rewrite Ht. apply saved_guarded_app.
    { apply saved_guarded_silent. intros line Hin. apply Hsilent.
      apply elem_of_app. by left. }
    apply saved_guarded_app; [by apply (saved_guarded_pair _ fields)|].
    apply saved_guarded_app.
    { apply saved_guarded_silent. intros line Hin. apply Hsilent.
      apply elem_of_app. by right. }
    destruct Hcs as [->|Hcs]; [by apply saved_guarded_silent; intros ? ?%elem_of_nil|].
    apply saved_guarded_app.
    - apply saved_guarded_flat_map. intros c' Hc%reached_elem.
      by apply (IH cs Hcs).
    - apply saved_guarded_silent. unfold loop_error.
      destruct (streams_fail cs); [|by intros line ?%elem_of_nil].
      intros line Hin%list_elem_of_singleton. injection Hin as ->.
      reflexivity. }
  apply (collection_tree_ind
           (λ d, ∀ col_path, saved_guarded base_path (doc_trace col_path d))
           (λ c, ∀ q, saved_guarded base_path (col_trace q c))).
  - intros id g msg col_path. apply Hdoc. intros cs [=].
  - intros id g cs IH col_path. apply Hdoc. intros cs' [= <-] c' Hc.
    rewrite Forall_forall in IH. by apply IH.
  - intros id ds f IH q. rewrite col_trace_eq. cbn [col_stream].
    apply (saved_guarded_app [Stream q]).
    { apply saved_guarded_silent. by intros line [=]%list_elem_of_singleton. }
    apply saved_guarded_flat_map. intros d Hd. rewrite Forall_forall in IH.
    apply (saved_guarded_app [Snapshot _]).
    { apply saved_guarded_silent. by intros line [=]%list_elem_of_singleton. }
    by apply IH.
Qed.

End SavedLines.

(** X13. A line that begins with [Saved] is printed only right after the
    data file it names was written, and written in full: the log never
    reports a truncated file as saved. *)
Theorem saved_line_follows_full_write
    (makedirs_fault open_fault : string → option string)
    (base_path q : string) (c : collection)
    (t1 t2 : list event) (line : string) :
  col_trace makedirs_fault open_fault base_path q c
    = t1 ++ Print line :: t2 →
  String.prefix "Saved" line = true →
  ∃ p fields text t0,
    line = saved_line p (file_path base_path p) ∧
    document_text fields = (text, None) ∧
    t1 = t0 ++ [Write DataFile (file_path base_path p) text].
Proof. apply saved_guarded_traversal. Qed.

Lemma saved_line_follows_full_write_witness :
  ∃ p fields text t0,
    "Saved document users/u1 to out/users/u1.json"
      = saved_line p (file_path "out" p) ∧
    document_text fields = (text, None) ∧
    take 5 (col_trace no_fault no_fault "out" "users" users_faulty)
      = t0 ++ [Write DataFile (file_path "out" p) text].
Proof.
  apply (saved_line_follows_full_write no_fault no_fault "out" "users"
           users_faulty
           (take 5 (col_trace no_fault no_fault "out" "users" users_faulty))
           (drop 6 (col_trace no_fault no_fault "out" "users" users_faulty))
           "Saved document users/u1 to out/users/u1.json" eq_refl eq_refl).
Defined.

(** ** A failure stays where it happened *)

(** X14. A failure inside a document stays inside it. Whatever raises in the
    [try] block of [process_document], the fetch, [os.makedirs], the data
    file, the listing of the subcollections, the manifest or a
    subcollection, is caught: the events of the block are followed by the
    line [Error processing document <path>: <message>], and
    [process_document] returns. So the loop of [process_collection] goes on
    to the next document of the stream whatever happened to the one
    before. *)
Theorem document_failure_is_logged
    (makedirs_fault open_fault : string → option string)
    (base_path col_path : string) (d : document) :
  let path := col_path +:+ "/" +:+ doc_id d in
  let body := document_body makedirs_fault open_fault base_path col_path d in
  process_document makedirs_fault open_fault base_path col_path d =
    match body.2 with
    | Returns _ => (body.1, Returns tt)
    | Raises msg =>
        (body.1 ++ [Print ("Error processing document " +:+ path +:+ ": "
                             +:+ msg)],
         Returns tt)
    end ∧
  (∀ cid before after fault,
     col_trace makedirs_fault open_fault base_path col_path
       (Collection cid (before ++ d :: after) fault) =
     Stream col_path
       :: flat_map (visit_trace makedirs_fault open_fault base_path col_path)
            before
       ++ (Snapshot path
             :: doc_trace makedirs_fault open_fault base_path col_path d)
       ++ flat_map (visit_trace makedirs_fault open_fault base_path col_path)
            after).
Proof.
  intros path body. split.
  - rewrite process_document_eq. fold body.
    by destruct body as [t [[]|msg]].
  - intros cid before after fault. rewrite col_trace_eq. cbn [col_stream].
    by rewrite flat_map_app.
Qed.

Lemma document_failure_is_logged_witness :
  process_document no_fault no_fault "out" "users"
    (Document "u4" (Raises "deadline exceeded") (Returns [])) =
  ([Get "users/u4";
    Print "Error processing document users/u4: deadline exceeded"],
   Returns tt) ∧
  process_document no_fault no_fault "out" "users" (blob_document "u2" []) =
  ([Get "users/u2"; Makedirs "out/users";
    Write DataFile "out/users/u2.json"
      ("{" +:+ line_feed "  " +:+ quoted "blob" +:+ ": ");
    Print "Error processing document users/u2: Object of type bytes is not JSON serializable"],
   Returns tt).
Proof.
  split.
  - apply (document_failure_is_logged no_fault no_fault "out" "users"
             (Document "u4" (Raises "deadline exceeded") (Returns []))).
  - apply (document_failure_is_logged no_fault no_fault "out" "users"
             (blob_document "u2" [])).
Defined.


